(** * RomChecker: a shallow embedding of [RomChecker.py]

    The development follows the layout of the script: the display-width
    engine, path and text helpers, a small file-system model, the two archive
    extractors, the ROM classifier, the collectors and the verification
    scheduler.  Python text is a sequence of Unicode code points, so a [str]
    is modelled as a list of code points ([N]); widths and counters are [Z]
    or [nat] where Python uses unbounded integers. *)

From Stdlib Require Import ZArith NArith List Ascii String Lia.
From Stdlib Require Import Decimal DecimalNat Permutation.
From stdpp Require Import base option list gmap sets sorting.

Local Open Scope Z_scope.

(** ** Python text *)

Abbreviation pystr := (list N).

(** An ASCII literal of the source, as code points. *)
Definition lit (s : string) : pystr :=
  map N_of_ascii (list_ascii_of_string s).
Arguments lit s%_string.

Definition ch (a : ascii) : N := N_of_ascii a.
Arguments ch a%_char.

Definition pystr_eqb (a b : pystr) : bool := bool_decide (a = b).

(** [not s] for a sequence [s]. *)
Definition is_empty {A} (s : list A) : bool :=
  match s with [] => true | _ => false end.

(** [c in s] for a one-character [c]. *)
Definition char_in (c : N) (s : pystr) : bool := existsb (N.eqb c) s.

(** [s.startswith(p)] *)
Fixpoint startswith (p s : pystr) : bool :=
  match p, s with
  | [], _ => true
  | a :: p', b :: s' => N.eqb a b && startswith p' s'
  | _ :: _, [] => false
  end.

(** [needle in hay]: substring test. *)
Fixpoint contains (needle hay : pystr) : bool :=
  startswith needle hay ||
  match hay with
  | [] => false
  | _ :: r => contains needle r
  end.

(** [s.endswith(p)] *)
Definition endswith (p s : pystr) : bool := startswith (rev p) (rev s).

(** [s.rfind(c)] for a one-character [c]; [None] stands for [-1]. *)
Fixpoint rfind (c : N) (s : pystr) : option nat :=
  match s with
  | [] => None
  | x :: r =>
      match rfind c r with
      | Some i => Some (S i)
      | None => if N.eqb x c then Some O else None
      end
  end.

(** [s.lower()] on the ASCII letters.  The comparisons of the script are all
    against the ASCII texts [.gb], [.gbc], [.zip] and [.7z], and no character
    outside ASCII lowers to one of their letters, so the other code points are
    left as they are. *)
Definition lower_char (c : N) : N :=
  if ((65 <=? c) && (c <=? 90))%N then (c + 32)%N else c.
Definition lower (s : pystr) : pystr := map lower_char s.

(** [str.isspace] of one code point, and [s.strip()]. *)
Definition is_space (c : N) : bool :=
  (((9 <=? c) && (c <=? 13)) || ((28 <=? c) && (c <=? 32))
   || (c =? 133) || (c =? 160) || (c =? 5760)
   || ((8192 <=? c) && (c <=? 8202))
   || (c =? 8232) || (c =? 8233) || (c =? 8239) || (c =? 8287)
   || (c =? 12288))%N.

Fixpoint lstrip (s : pystr) : pystr :=
  match s with
  | c :: r => if is_space c then lstrip r else s
  | [] => []
  end.
Definition strip (s : pystr) : pystr := rev (lstrip (rev (lstrip s))).

(** [str(n)] / [f"{n}"] for a natural number: its decimal digits. *)
Fixpoint digits (u : uint) : pystr :=
  match u with
  | Nil => []
  | D0 u => 48%N :: digits u
  | D1 u => 49%N :: digits u
  | D2 u => 50%N :: digits u
  | D3 u => 51%N :: digits u
  | D4 u => 52%N :: digits u
  | D5 u => 53%N :: digits u
  | D6 u => 54%N :: digits u
  | D7 u => 55%N :: digits u
  | D8 u => 56%N :: digits u
  | D9 u => 57%N :: digits u
  end.
Definition str_of_nat (n : nat) : pystr := digits (Nat.to_uint n).

(** ** Display-width engine *)

(** The script takes [wcswidth] from the [wcwidth] package when that is
    installed (line 24) and defines it itself when the import fails (lines
    26-27).  This module is the script with its own definition: what is said
    of widths below is said of a run without the package, where the width of
    a text is the sum of the widths of its characters. *)

Module Width.

(** The fallback [wcswidth] of the script:
    [sum(2 if ord(c) > 127 else 1 for c in s)]. *)
Definition char_width (c : N) : Z := if (127 <? c)%N then 2 else 1.

Fixpoint wcswidth (s : pystr) : Z :=
  match s with
  | [] => 0
  | c :: r => char_width c + wcswidth r
  end.

Definition pad_to_display_width (text : pystr) (target_width : Z) : pystr :=
  let current := wcswidth text in
  if target_width <=? current then text
  else text ++ repeat (ch " ") (Z.to_nat (target_width - current)).

(** The split of [text] into [base] and [ext]: the extension starts at the
    last dot when that leaves at most 8 characters. *)
Definition split_ext (text : pystr) : pystr * pystr :=
  match rfind (ch ".") text with
  | Some i =>
      if (Z.of_nat (length text) - Z.of_nat i <=? 8)
      then (take i text, drop i text)
      else (text, [])
  | None => (text, [])
  end.

(** [for c in reversed(base)]: collect trailing characters while the tail
    stays within 4 cells. *)
Fixpoint tail_loop (rbase tail : pystr) (tail_width : Z) : pystr * Z :=
  match rbase with
  | [] => (tail, tail_width)
  | c :: r =>
      let cw := wcswidth [c] in
      if 4 <? tail_width + cw then (tail, tail_width)
      else tail_loop r (c :: tail) (tail_width + cw)
  end.

(** [for c in base]: the greedy prefix. *)
Fixpoint prefix_loop (cs tail : pystr) (prefix_max_width : Z)
    (prefix : pystr) : pystr :=
  match cs with
  | [] => prefix
  | c :: r =>
      if char_in c tail then prefix
      else
        let cw := wcswidth [c] in
        if prefix_max_width <? wcswidth prefix + cw then prefix
        else prefix_loop r tail prefix_max_width (prefix ++ [c])
  end.

(** The second [for c in base] of the special case. *)
Fixpoint fallback_loop (cs base tail : pystr) (prefix_max_width : Z)
    (prefix : pystr) : pystr :=
  match cs with
  | [] => prefix
  | c :: r =>
      if contains (prefix ++ [c]) base && contains (prefix ++ [c] ++ tail) base
      then
        if wcswidth (prefix ++ [c]) <=? prefix_max_width
        then fallback_loop r base tail prefix_max_width (prefix ++ [c])
        else prefix
      else fallback_loop r base tail prefix_max_width prefix
  end.

Definition truncate_to_display_width (text : pystr) (max_width : Z) : pystr :=
  if wcswidth text <=? max_width then text
  else
    let '(base, ext) := split_ext text in
    let ext_width := wcswidth ext in
    let ellipsis := lit "..." in
    let ellipsis_width := wcswidth ellipsis in
    if max_width <=? ellipsis_width + ext_width then ellipsis ++ ext
    else
      let '(tail, tail_width) := tail_loop (rev base) [] 0 in
      let used_width := tail_width + ellipsis_width + ext_width in
      let prefix_max_width := max_width - used_width in
      let prefix := prefix_loop base tail prefix_max_width [] in
      let prefix :=
        if is_empty prefix && (0 <? prefix_max_width)
        then fallback_loop base base tail prefix_max_width prefix
        else prefix in
      prefix ++ ellipsis ++ tail ++ ext.

End Width.

(** ** Paths

    A [pathlib.Path] is its sequence of parts.  *)

Abbreviation Path := (list (list N)).

Definition idx (o : option nat) : Z :=
  match o with Some i => Z.of_nat i | None => -1 end.

(** [s.split(c)] *)
Fixpoint split_on (c : N) (s : pystr) : list pystr :=
  match s with
  | [] => [[]]
  | x :: r =>
      match split_on c r with
      | cur :: rest => if N.eqb x c then [] :: cur :: rest else (x :: cur) :: rest
      | [] => [[x]]
      end
  end.

(** [sep.join(parts)] *)
Fixpoint join (sep : pystr) (parts : list pystr) : pystr :=
  match parts with
  | [] => []
  | [p] => p
  | p :: ps => p ++ sep ++ join sep ps
  end.

(** [s.replace(old, new)] for a one-character [old]. *)
Definition replace_char (old : N) (new : pystr) (s : pystr) : pystr :=
  flat_map (fun c => if N.eqb c old then new else [c]) s.

(** The parts pathlib keeps of a relative text: empty parts and single dots
    are dropped, [..] is kept. *)
Definition parse_parts (s : pystr) : list pystr :=
  filter (fun c => c <> [] /\ c <> lit ".") (split_on (ch "/") s).

(** [Path(p) / s]: an absolute [s] replaces [p]. *)
Definition joinpath (p : Path) (s : pystr) : Path :=
  if startswith (lit "/") s then lit "/" :: parse_parts s
  else p ++ parse_parts s.

(** [str(p)] with [os.sep] between the parts. *)
Definition path_str (p : Path) : pystr :=
  match p with
  | root :: rest =>
      if pystr_eqb root (lit "/") then root ++ join (lit "/") rest
      else join (lit "/") p
  | [] => lit "."
  end.

(** [p.name] *)
Definition path_name (p : Path) : pystr := List.last p [].

(** Where pathlib cuts a name into stem and suffix: at the last dot, unless
    it is the first or the last character. *)
Definition suffix_index (name : pystr) : option nat :=
  match rfind (ch ".") name with
  | Some i =>
      if (0 <? Z.of_nat i) && (Z.of_nat i <? Z.of_nat (length name) - 1)
      then Some i else None
  | None => None
  end.

(** [p.suffix] and [p.stem] *)
Definition path_suffix (p : Path) : pystr :=
  let name := path_name p in
  match suffix_index name with Some i => drop i name | None => [] end.

Definition path_stem (p : Path) : pystr :=
  let name := path_name p in
  match suffix_index name with Some i => take i name | None => name end.

(** [os.path.basename(s)] *)
Definition basename (s : pystr) : pystr :=
  match rfind (ch "/") s with
  | Some i => drop (S i) s
  | None => s
  end.

(** [os.path.splitext(s)]: the extension starts at the last dot after the
    last separator, unless only dots come before it in the last part. *)
Definition splitext (s : pystr) : pystr * pystr :=
  let sepIndex := idx (rfind (ch "/") s) in
  let dotIndex := idx (rfind (ch ".") s) in
  if sepIndex <? dotIndex then
    let lead := drop (Z.to_nat (sepIndex + 1)) (take (Z.to_nat dotIndex) s) in
    if forallb (N.eqb (ch ".")) lead then (s, [])
    else (take (Z.to_nat dotIndex) s, drop (Z.to_nat dotIndex) s)
  else (s, []).

(** [name.lower().endswith(('.gb', '.gbc'))] *)
Definition is_rom_name (name : pystr) : bool :=
  endswith (lit ".gb") (lower name) || endswith (lit ".gbc") (lower name).

(** [suffix.lower() in ('.gb', '.gbc')] *)
Definition is_rom_suffix (suf : pystr) : bool :=
  pystr_eqb (lower suf) (lit ".gb") || pystr_eqb (lower suf) (lit ".gbc").

(** ** File system

    A finite map from paths to nodes, which holds the directories as well as
    the files.  The current directory, the empty path, is always there and
    needs no entry.  Lookups are by parts: a [..] part is not resolved, so
    paths with such parts are outside what the model describes; names are
    compared exactly (a case-sensitive file system). *)

Inductive node :=
  | File (data : list Byte.byte)
  | Dir.

Abbreviation fsys := (gmap (list (list N)) node).

Definition path_exists (fs : fsys) (p : Path) : bool :=
  match fs !! p with Some _ => true | None => false end.

Definition is_file (fs : fsys) (p : Path) : bool :=
  match fs !! p with Some (File _) => true | _ => false end.

Definition is_dir (fs : fsys) (p : Path) : bool :=
  match fs !! p with Some Dir => true | _ => false end.

(** [open(p, 'rb')] followed by reading: [None] when opening raises. *)
Definition open_rb (fs : fsys) (p : Path) : option (list Byte.byte) :=
  match fs !! p with Some (File data) => Some data | _ => None end.

(** What the system finds at [p]. *)
Definition stat (fs : fsys) (p : Path) : option node :=
  match p with
  | [] => Some Dir
  | _ => fs !! p
  end.

(** [p.parent]: the directory [p] lies in. *)
Definition parent (p : Path) : Path := removelast p.

(** [dst] is a directory above [src]. *)
Definition is_above (dst src : Path) : bool :=
  bool_decide (take (length dst) src = dst)
  && (Z.of_nat (length dst) <? Z.of_nat (length src)).

(** ** ROM classifier *)

Module Classifier.

Inductive gb_type := GB | GBC.

Definition OK : pystr := [0x2705%N].
Definition MISMATCH : pystr := [0x274C%N].
Definition UNKNOWN : pystr := [0x26A0%N; 0xFE0F%N].

(** The header byte [v = b[0]] mapped to a type. *)
Definition classify (v : N) : option gb_type :=
  if (v =? 0x00)%N then Some GB
  else if ((v =? 0x80) || (v =? 0xC0))%N then Some GBC
  else None.

(** [f.seek(0x143); b = f.read(1)] *)
Definition read_header (data : list Byte.byte) : option Byte.byte :=
  data !! 0x143%nat.

Definition detect_gb_type (fs : fsys) (rom_path : Path) : option gb_type :=
  match open_rb fs rom_path with
  | Some data =>
      match read_header data with
      | None => None
      | Some b => classify (Byte.to_N b)
      end
  | None => None
  end.

Definition exp_ext (t : gb_type) : pystr :=
  match t with GB => lit ".gb" | GBC => lit ".gbc" end.

Definition check_rom (fs : fsys) (rom_path : Path) (display_name : pystr)
    : pystr * pystr * pystr :=
  match detect_gb_type fs rom_path with
  | None => (display_name, UNKNOWN, lit "?")
  | Some t =>
      let cur_ext := lower (path_suffix rom_path) in
      let exp_ext := exp_ext t in
      let status := if pystr_eqb cur_ext exp_ext then OK else MISMATCH in
      let suggest := if pystr_eqb status OK then [] else exp_ext in
      (display_name, status, suggest)
  end.

End Classifier.

(** ** Effects

    The extractors change the file system and may raise; the file system is
    threaded through and an exception is a result.  [OutOfFuel] marks a
    [while] loop cut short by its bound; the extractor is shown below never to
    produce it. *)

Inductive exn :=
  | BadZipFile
  | KeyError
  | IsADirectoryError
  | NotADirectoryError
  | FileNotFoundError
  | FileExistsError
  | ValueError
  | OSError.

Inductive res (A : Type) :=
  | Ok (a : A)
  | Raise (e : exn)
  | OutOfFuel.
Arguments Ok {A} a.
Arguments Raise {A} e.
Arguments OutOfFuel {A}.

Definition M (A : Type) : Type := fsys -> fsys * res A.

Definition ret {A} (a : A) : M A := fun fs => (fs, Ok a).
Definition raise {A} (e : exn) : M A := fun fs => (fs, Raise e).
Definition bind {A B} (m : M A) (k : A -> M B) : M B :=
  fun fs =>
    match m fs with
    | (fs', Ok a) => k a fs'
    | (fs', Raise e) => (fs', Raise e)
    | (fs', OutOfFuel) => (fs', OutOfFuel)
    end.

(** A computation that came to an end: a value or an exception. *)
Definition returns {A} (r : fsys * res A) : Prop := snd r <> OutOfFuel.

#[global] Instance M_ret : MRet M := @ret.
#[global] Instance M_bind : MBind M := fun A B k m => bind m k.

(** The system call behind an entry made, replaced or moved at [p] walks to
    the directory [p] lies in: the error it meets there, if any. *)
Definition parent_error (fs : fsys) (p : Path) : option exn :=
  match stat fs (parent p) with
  | Some Dir => None
  | Some (File _) => Some NotADirectoryError
  | None => Some FileNotFoundError
  end.

(** [os.mkdir(p)] *)
Definition mkdir (p : Path) : M unit :=
  fun fs =>
    match parent_error fs p with
    | Some e => (fs, Raise e)
    | None =>
        match stat fs p with
        | Some _ => (fs, Raise FileExistsError)
        | None => (<[p := Dir]> fs, Ok tt)
        end
    end.

(** [try: m except FileExistsError: pass] *)
Definition pass_exists (m : M unit) : M unit :=
  fun fs =>
    match m fs with
    | (fs', Raise FileExistsError) => (fs', Ok tt)
    | r => r
    end.

(** [os.makedirs(name)] where [name] is the first [n] parts of [p]: when the
    directory above [name] is missing it is made first, by the same
    function, and then [name] itself. *)
Fixpoint makedirs (n : nat) (p : Path) : M unit :=
  match n with
  | O => raise FileNotFoundError
  | S k =>
      (fun fs =>
         match stat fs (take k p) with
         | Some _ => (fs, Ok tt)
         | None => pass_exists (makedirs k p) fs
         end);;
      mkdir (take (S k) p)
  end.

(** [open(p, 'wb')] and writing [data]: an existing file is replaced. *)
Definition write_file (p : Path) (data : list Byte.byte) : M unit :=
  fun fs =>
    match parent_error fs p with
    | Some e => (fs, Raise e)
    | None =>
        match stat fs p with
        | Some Dir => (fs, Raise IsADirectoryError)
        | _ => (<[p := File data]> fs, Ok tt)
        end
    end.

(** [src.rename(dst)] for a file [src], as [rename(2)] answers: a source
    that lies below the target finds the target not empty ([ENOTEMPTY], a
    plain [OSError]).  The script renames only the entry it has just
    written; moving a directory is not described. *)
Definition rename (src dst : Path) : M unit :=
  fun fs =>
    match parent_error fs src with
    | Some e => (fs, Raise e)
    | None =>
        match parent_error fs dst with
        | Some e => (fs, Raise e)
        | None =>
            match fs !! src with
            | Some (File data) =>
                if is_above dst src then (fs, Raise OSError)
                else
                  match stat fs dst with
                  | Some Dir => (fs, Raise IsADirectoryError)
                  | _ => (<[dst := File data]> (delete src fs), Ok tt)
                  end
            | Some Dir => (fs, Raise OSError)
            | None => (fs, Raise FileNotFoundError)
            end
        end
    end.

(** [p.mkdir(exist_ok=True)]: a missing parent is an error; any other error
    of [os.mkdir] is passed over when [p] is a directory. *)
Definition mkdir_exist_ok (p : Path) : M unit :=
  fun fs =>
    match mkdir p fs with
    | (fs', Raise FileNotFoundError) => (fs', Raise FileNotFoundError)
    | (fs', Raise e) =>
        match stat fs' p with
        | Some Dir => (fs', Ok tt)
        | _ => (fs', Raise e)
        end
    | r => r
    end.

(** [p.iterdir()]: the entries directly under [p]. *)
Definition iterdir (fs : fsys) (d : Path) : list Path + exn :=
  match stat fs d with
  | Some Dir =>
      inl (filter (fun p => p <> [] /\ parent p = d)
             (map fst (map_to_list fs)))
  | Some (File _) => inr NotADirectoryError
  | None => inr FileNotFoundError
  end.

(** ** The deflate reader

    An archive is its list of entries, in the order of [namelist()]. *)

Inductive zipfile :=
  | BadZip
  | Zip (entries : list (pystr * list Byte.byte)).

Definition namelist (entries : list (pystr * list Byte.byte)) : list pystr :=
  map fst entries.

(** [zf.getinfo(name)]: with a repeated name the last entry is the one kept. *)
Definition getinfo (entries : list (pystr * list Byte.byte)) (name : pystr)
    : option (list Byte.byte) :=
  fold_left
    (fun acc e => if pystr_eqb (fst e) name then Some (snd e) else acc)
    entries None.

(** The parts [zf.extract] keeps of an entry name: empty parts, [.] and [..]
    are dropped. *)
Definition extract_parts (name : pystr) : list pystr :=
  filter (fun c => c <> [] /\ c <> lit "." /\ c <> lit "..")
    (split_on (ch "/") name).

(** [if upperdirs and not os.path.exists(upperdirs): os.makedirs(upperdirs)]
    of [zf.extract]. *)
Definition make_upperdirs (upperdirs : Path) : M unit :=
  fun fs =>
    match stat fs upperdirs with
    | Some _ => (fs, Ok tt)
    | None => makedirs (length upperdirs) upperdirs fs
    end.

(** [zf.extract(name, out_dir)]: the directories above the target are made
    when the one it lies in is missing, and the data is written. *)
Definition zf_extract (entries : list (pystr * list Byte.byte))
    (name : pystr) (out_dir : Path) : M unit :=
  match getinfo entries name with
  | None => raise KeyError
  | Some data =>
      let arcname := extract_parts name in
      if is_empty arcname then raise ValueError
      else
        let targetpath := out_dir ++ arcname in
        let upperdirs := parent targetpath in
        make_upperdirs upperdirs;;
        write_file targetpath data
  end.

Section Program.

(** What the platform supplies: the text of an exception, the string hash,
    the deflate reader, the path of the extraction utility and what running
    it does. *)
Variable exn_str : exn -> pystr.
Variable hash : pystr -> Z.
Variable open_zip : Path -> zipfile.
Variable seven_zip : Path.

Inductive run_result :=
  | Completed (returncode : Z) (stdout stderr : pystr)
  | TimeoutExpired
  | RunRaised (e : exn).

Variable run_7za : Path -> Path -> fsys -> fsys * run_result.

(** ** Messages *)

Definition msg_no_7za : pystr :=
  [0x274C; 0x20; 0x672A; 0x627E; 0x5230; 0x20]%N ++ lit "7za.exe".
Definition msg_no_match : pystr :=
  [0x538B; 0x7F29; 0x5305; 0x5185; 0x65E0; 0x20]%N ++ lit ".gb/.gbc".
Definition msg_extract_failed : pystr :=
  [0x63D0; 0x53D6; 0x5931; 0x8D25]%N ++ lit ": ".
Definition msg_success : pystr := [0x6210; 0x529F]%N.
Definition msg_none_found : pystr :=
  [0x672A; 0x627E; 0x5230; 0x20]%N ++ lit ".gb/.gbc".
Definition msg_timeout : pystr := [0x8D85; 0x65F6]%N.
Definition msg_exception : pystr := [0x5F02; 0x5E38]%N ++ lit ": ".
Definition msg_zip_failed : pystr :=
  lit "Zip " ++ [0x63D0; 0x53D6; 0x5931; 0x8D25]%N ++ lit ": ".

(** ** 7z extraction *)

Definition no_files_to_process : pystr := lit "No files to process".

Definition extract_gb_gbc_with_7za (archive_path out_dir : Path)
    : fsys -> fsys * (list Path * pystr) :=
  fun fs =>
    if negb (path_exists fs seven_zip) then (fs, ([], msg_no_7za))
    else
      match run_7za archive_path out_dir fs with
      | (fs', Completed returncode stdout stderr) =>
          if contains no_files_to_process stderr
             || contains no_files_to_process stdout
          then (fs', ([], msg_no_match))
          else if negb (returncode =? 0) then
            let err :=
              take 80 (if is_empty (strip stderr)
                       then strip stdout else strip stderr) in
            (fs', ([], msg_extract_failed ++ err))
          else
            match iterdir fs' out_dir with
            | inl listing =>
                let roms :=
                  filter (fun f => is_file fs' f
                                   && is_rom_suffix (path_suffix f)) listing in
                (fs', (roms, if is_empty roms
                             then msg_none_found else msg_success))
            | inr e => (fs', ([], msg_exception ++ exn_str e))
            end
      | (fs', TimeoutExpired) => (fs', ([], msg_timeout))
      | (fs', RunRaised e) => (fs', ([], msg_exception ++ exn_str e))
      end.

(** ** Zip extraction *)

Definition gb_files (names : list pystr) : list pystr :=
  filter (fun n => is_rom_name n) names.

(** The [while out_path.exists()] loop, at most [fuel] renamings. *)
Fixpoint dedup_loop (fuel : nat) (fs : fsys) (out_dir : Path)
    (stem suffix : pystr) (counter : nat) (out_path : Path) : option Path :=
  if path_exists fs out_path then
    match fuel with
    | O => None
    | S fuel' =>
        dedup_loop fuel' fs out_dir stem suffix (S counter)
          (joinpath out_dir (stem ++ lit "_" ++ str_of_nat counter ++ suffix))
    end
  else Some out_path.

(** The [counter]-th name the loop tries. *)
Definition candidate (out_dir : Path) (stem suffix : pystr) (counter : nat)
    : Path :=
  joinpath out_dir (stem ++ lit "_" ++ str_of_nat counter ++ suffix).

Definition choose_out_path (out_dir : Path) (filename : pystr) : M Path :=
  fun fs =>
    let out_path := joinpath out_dir filename in
    let counter := 1%nat in
    let '(stem, suffix) := splitext filename in
    match dedup_loop (S (size fs)) fs out_dir stem suffix counter out_path with
    | Some p => (fs, Ok p)
    | None => (fs, OutOfFuel)
    end.

(** The body of [for name in gb_files]. *)
Definition extract_entry (entries : list (pystr * list Byte.byte))
    (out_dir : Path) (name : pystr) : M Path :=
  let filename := basename name in
  out_path ← choose_out_path out_dir filename;
  zf_extract entries name out_dir;;
  let extracted := joinpath out_dir name in
  (if bool_decide (extracted <> out_path)
   then rename extracted out_path else ret tt);;
  ret out_path.

Fixpoint extract_entries (entries : list (pystr * list Byte.byte))
    (out_dir : Path) (names : list pystr) (roms : list Path)
    : M (list Path) :=
  match names with
  | [] => ret roms
  | name :: rest =>
      out_path ← extract_entry entries out_dir name;
      extract_entries entries out_dir rest (roms ++ [out_path])
  end.

Definition extract_gb_gbc_from_zip (zf : zipfile) (out_dir : Path)
    : M (list Path * pystr) :=
  fun fs =>
    match zf with
    | BadZip => (fs, Ok ([], msg_zip_failed ++ exn_str BadZipFile))
    | Zip entries =>
        let gb_files := gb_files (namelist entries) in
        if is_empty gb_files then (fs, Ok ([], msg_no_match))
        else
          match extract_entries entries out_dir gb_files [] fs with
          | (fs', Ok roms) => (fs', Ok (roms, msg_success))
          | (fs', Raise e) => (fs', Ok ([], msg_zip_failed ++ exn_str e))
          | (fs', OutOfFuel) => (fs', OutOfFuel)
          end
    end.

(** ** Archive collector *)

(** [f"{n:04d}"] *)
Definition fmt04 (n : nat) : pystr :=
  let d := str_of_nat n in
  repeat (ch "0") (4 - length d) ++ d.

Definition subdir_name (archive_path : Path) : pystr :=
  lit "_" ++ take 20 (path_stem archive_path) ++ lit "_"
  ++ fmt04 (Z.to_nat (Z.abs (hash (path_str archive_path)) mod 10000)).

Definition with_names (files : list Path) : list (Path * pystr) :=
  map (fun f => (f, path_name f)) files.

(** The messages printed on the way are left out. *)
Definition collect_from_archive (archive_path base_tmpdir : Path)
    : M (list (Path * pystr)) :=
  let tmp_subdir := joinpath base_tmpdir (subdir_name archive_path) in
  mkdir_exist_ok tmp_subdir;;
  let suf := lower (path_suffix archive_path) in
  if pystr_eqb suf (lit ".zip") then
    '(files, msg) ← extract_gb_gbc_from_zip (open_zip archive_path) tmp_subdir;
    if is_empty files then ret [] else ret (with_names files)
  else if pystr_eqb suf (lit ".7z") then
    fun fs =>
      let '(fs', (files, msg)) :=
        extract_gb_gbc_with_7za archive_path tmp_subdir fs in
      if is_empty files then (fs', Ok [])
      else (fs', Ok (with_names files))
  else ret [].

End Program.

(** ** Folder collector *)

Module Folder.

#[local] Set Warnings "-register-all".

(** A directory as [os.walk] sees it: its plain files and its
    sub-directories, by name. *)
Inductive tree :=
  | Node (files : list pystr) (dirs : list (pystr * tree)).

(** [os.walk(folder)], top-down: each directory with the names of its files.
    [root] is kept as the parts of [Path(root)]. *)
Fixpoint walk (root : Path) (t : tree) : list (Path * list pystr) :=
  match t with
  | Node files dirs =>
      (root, files)
      :: flat_map (fun d => let '(name, sub) := d in walk (root ++ [name]) sub)
           dirs
  end.

(** [p.relative_to(folder)]; [None] when it raises. *)
Fixpoint relative_to (p folder : Path) : option Path :=
  match folder, p with
  | [], _ => Some p
  | a :: folder', b :: p' =>
      if pystr_eqb a b then relative_to p' folder' else None
  | _ :: _, [] => None
  end.

Definition arrow : pystr := [0x2192%N].

(** [os.sep] of the path model. *)
Definition sep : N := ch "/".

(** The [try] block giving [disp]. *)
Definition display (folder p : Path) (f : pystr) : pystr :=
  match relative_to p folder with
  | Some rel => replace_char sep arrow (path_str rel)
  | None => f
  end.

Definition collect_from_folder (folder : Path) (t : tree)
    : list (Path * pystr) :=
  flat_map
    (fun rf =>
       let '(root, files) := rf in
       map (fun f => let p := joinpath root f in (p, display folder p f))
         (filter (fun f => is_rom_name f) files))
    (walk folder t).

(** What the collector is measured against: the names a directory entry can
    have, trees made of such names, and the files of a tree by the
    directories leading to them. *)
Definition valid_name (n : pystr) : bool :=
  negb (is_empty n) && negb (char_in sep n)
  && negb (pystr_eqb n (lit ".")) && negb (pystr_eqb n (lit "..")).

Fixpoint wf_tree (t : tree) : bool :=
  match t with
  | Node files dirs =>
      forallb valid_name files
      && forallb (fun d => let '(name, sub) := d in
                           valid_name name && wf_tree sub) dirs
  end.

Fixpoint dir_at (dirs : list pystr) (t : tree) (files : list pystr) : Prop :=
  match dirs, t with
  | [], Node fs _ => files = fs
  | d :: ds, Node _ subs => exists sub, In (d, sub) subs /\ dir_at ds sub files
  end.

Definition file_at (dirs : list pystr) (t : tree) (f : pystr) : Prop :=
  exists files, dir_at dirs t files /\ In f files.

End Folder.

(** ** Verification scheduler *)

Module Scheduler.

Abbreviation verdict := (pystr * pystr * pystr)%type.

(** [executor.submit(check_rom, path, name)] for each element: the futures
    are distinct objects, so the dictionary comprehension keeps one key per
    element; a future is identified by its position of submission. *)
Definition submit_all (fs : fsys) (all_roms : list (Path * pystr))
    : gmap nat verdict :=
  list_to_map
    (imap (fun i r => (i, Classifier.check_rom fs (fst r) (snd r))) all_roms).

(** [for future in as_completed(futures): results.append(future.result())]:
    any pending future may be the next to complete, and each is yielded
    once. *)
Inductive as_completed : gmap nat verdict -> list verdict -> Prop :=
  | completed_all : as_completed ∅ []
  | completed_next (pending : gmap nat verdict) i v results :
      pending !! i = Some v ->
      as_completed (delete i pending) results ->
      as_completed pending (v :: results).

(** The sequential reference: [checkRom] mapped over the list. *)
Definition check_all (fs : fsys) (all_roms : list (Path * pystr))
    : list verdict :=
  map (fun r => Classifier.check_rom fs (fst r) (snd r)) all_roms.

End Scheduler.

(** ** Sample data *)

(** A ROM image of 0x144 bytes whose header byte is [b]. *)
Definition rom_with_header (b : Byte.byte) : list Byte.byte :=
  repeat Byte.x00 0x143 ++ [b].

(** A run of the archive collector on the archive [/in/roms.zip] with the
    entries [entries], into the fresh workspace [/tmp/w]: the hash of the
    archive path is taken to be 0 and the extraction utility is not
    involved. *)
Definition sample_collect (entries : list (pystr * list Byte.byte))
    : fsys * res (list (Path * pystr)) :=
  collect_from_archive (fun _ => []) (fun _ => 0) (fun _ => Zip entries)
    [] (fun _ _ fs => (fs, TimeoutExpired))
    [lit "/"; lit "in"; lit "roms.zip"] [lit "/"; lit "tmp"; lit "w"]
    {[ [lit "/"; lit "tmp"; lit "w"] := Dir ]}.

Definition sample_subdir : Path :=
  [lit "/"; lit "tmp"; lit "w"; lit "_roms_0000"].

(** ** Report renderer *)

Module Report.

Abbreviation verdict := (pystr * pystr * pystr)%type.

Definition NAME_WIDTH : Z := 48.
Definition STATUS_WIDTH : Z := 4.
Definition SUGGEST_WIDTH : Z := 10.

(** [s.center(width)]: the padding is counted in characters; when it is odd
    the extra space goes to the left only if [width] is odd too. *)
Definition center (s : pystr) (width : Z) : pystr :=
  let len := Z.of_nat (length s) in
  if width <=? len then s
  else
    let marg := width - len in
    let left := marg / 2 + (if Z.odd marg && Z.odd width then 1 else 0) in
    repeat (ch " ") (Z.to_nat left) ++ s
    ++ repeat (ch " ") (Z.to_nat (marg - left)).

(** [a < b] on texts: by code points, a proper prefix first. *)
Fixpoint str_ltb (a b : pystr) : bool :=
  match a, b with
  | [], [] => false
  | [], _ :: _ => true
  | _ :: _, [] => false
  | x :: a', y :: b' => (x <? y)%N || ((x =? y)%N && str_ltb a' b')
  end.

(** [str(n)] for an integer. *)
Definition str_of_Z (n : Z) : pystr :=
  if n <? 0 then lit "-" ++ str_of_nat (Z.abs_nat n)
  else str_of_nat (Z.to_nat n).

Definition msg_no_rom : pystr :=
  [0xA; 0x274C; 0x20; 0x672A; 0x627E; 0x5230; 0x53EF; 0x8BC6; 0x522B;
   0x7684; 0x20]%N ++ lit "ROM".
Definition txt_file_name : pystr := [0x6587; 0x4EF6; 0x540D]%N.
Definition txt_status : pystr := [0x72B6; 0x6001]%N.
Definition txt_suggest : pystr := [0x5EFA; 0x8BAE; 0x6269; 0x5C55; 0x540D]%N.
Definition txt_stats_total : pystr :=
  [0xA; 0x1F4CA; 0x20; 0x7EDF; 0x8BA1; 0x3A; 0x20; 0x5171; 0x20]%N.
Definition txt_stats_ok : pystr :=
  [0x20; 0x4E2A; 0x20; 0x7C; 0x20; 0x6B63; 0x786E; 0x20]%N.
Definition txt_stats_bad : pystr := [0x20; 0x7C; 0x20; 0x9519; 0x8BEF; 0x20]%N.
Definition txt_stats_unk : pystr := [0x20; 0x7C; 0x20; 0x672A; 0x77E5; 0x20]%N.

(** [sum(1 for _, s, _ in results if s == symbol)] *)
Definition count_status (symbol : pystr) (results : list verdict) : Z :=
  Z.of_nat (length (filter (fun v => snd (fst v) = symbol) results)).

(** One line of the table body. *)
Definition row (v : verdict) : pystr :=
  let '(name, stat, sug) := v in
  let truncated := Width.truncate_to_display_width name NAME_WIDTH in
  let disp_name := Width.pad_to_display_width truncated NAME_WIDTH in
  let stat_cell := center stat STATUS_WIDTH in
  let sug_cell := Width.pad_to_display_width sug SUGGEST_WIDTH in
  disp_name ++ lit "  " ++ stat_cell ++ lit "  " ++ sug_cell.

Section Sorting.

(** [str.lower] over all of Unicode, which orders the rows. *)
Variable str_lower : pystr -> pystr.

(** [key=lambda x: x[0].lower()] *)
Definition sort_key (v : verdict) : pystr := str_lower (fst (fst v)).

(** [sorted(results, key=...)]: the stable sort, by insertion; an element
    goes behind the elements whose key is not greater than its own. *)
Fixpoint insert_by_key (x : verdict) (l : list verdict) : list verdict :=
  match l with
  | [] => [x]
  | y :: r =>
      if str_ltb (sort_key x) (sort_key y) then x :: y :: r
      else y :: insert_by_key x r
  end.

Definition sorted (results : list verdict) : list verdict :=
  fold_left (fun acc x => insert_by_key x acc) results [].

(** The order of the rows: the key of [b] is not less than the key of [a]. *)
Definition key_le (a b : verdict) : Prop :=
  str_ltb (sort_key b) (sort_key a) = false.

(** The texts passed to [print], one element for each call. *)
Definition print_table (results : list verdict) : list pystr :=
  if is_empty results then [msg_no_rom]
  else
    let header_name := Width.pad_to_display_width txt_file_name NAME_WIDTH in
    let header_status := center txt_status STATUS_WIDTH in
    let header_suggest :=
      Width.pad_to_display_width txt_suggest SUGGEST_WIDTH in
    let header :=
      header_name ++ lit "  " ++ header_status ++ lit "  " ++ header_suggest in
    let total_width := Width.wcswidth header in
    let line := repeat (ch "=") (Z.to_nat total_width) in
    let total := Z.of_nat (length results) in
    let ok := count_status Classifier.OK results in
    let bad := count_status Classifier.MISMATCH results in
    let unk := total - ok - bad in
    [lit (String "010" "") ++ line; header;
     repeat (ch "-") (Z.to_nat total_width)]
    ++ map row (sorted results)
    ++ [line;
        txt_stats_total ++ str_of_Z total ++ txt_stats_ok ++ str_of_Z ok
        ++ txt_stats_bad ++ str_of_Z bad ++ txt_stats_unk ++ str_of_Z unk].

End Sorting.

End Report.

(** ** Zip extraction: where an entry can go

    [q] is the file, directly in [out_dir], named by the base name of the
    entry or by that name with [_N] before the extension. *)

Definition target_of (out_dir : Path) (name : pystr) (q : Path) : Prop :=
  exists x,
    q = out_dir ++ [x]
    /\ (x = basename name
        \/ exists n,
             (1 <= n)%nat
             /\ x = fst (splitext (basename name)) ++ lit "_"
                    ++ str_of_nat n ++ snd (splitext (basename name))).

(** ** Zip extraction: the part of the file system it works in *)

(** [p] lies below [out_dir]. *)
Definition strictly_under (out_dir p : Path) : Prop :=
  exists rel, rel <> [] /\ p = out_dir ++ rel.

(** [fs'] agrees with [fs] on every path that is not below [out_dir]. *)
Definition unchanged_outside (out_dir : Path) (fs fs' : fsys) : Prop :=
  forall p, ~ strictly_under out_dir p -> fs' !! p = fs !! p.

(** An entry name that stays inside the directory it is extracted to: not
    absolute and without a [..] part. *)
Definition inside_name (name : pystr) : Prop :=
  startswith (lit "/") name = false /\ extract_parts name = parse_parts name.

(** A computation that, started where [out_dir] is a directory, leaves
    everything outside [out_dir] alone, whether it ends with a value or with
    an exception. *)
Definition frames {A} (out_dir : Path) (m : M A) : Prop :=
  forall fs,
    is_dir fs out_dir = true -> unchanged_outside out_dir fs (fst (m fs)).

(** ** Zip extraction: archives without clashes *)

(** The directory parts of an entry name. *)
Definition dir_parts (name : pystr) : list pystr :=
  removelast (extract_parts name).

(** What holds between two entries of an extraction in which every entry
    [m] so far has reached the name [tgt m] in [out_dir]: [out_dir] is a
    directory, each of these entries has its data there, and whatever else
    is below [out_dir] is a directory made for one of them. *)
Definition zip_inv (entries : list (pystr * list Byte.byte)) (out_dir : Path)
    (tgt : pystr -> pystr) (done : list pystr) (fs : fsys) : Prop :=
  is_dir fs out_dir = true
  /\ (forall m, In m done ->
        exists data,
          getinfo entries m = Some data
          /\ fs !! (out_dir ++ [tgt m]) = Some (File data))
  /\ (forall rel x, rel <> [] -> fs !! (out_dir ++ rel) = Some x ->
        (exists m, In m done /\ rel = [tgt m])
        \/ (x = Dir
            /\ exists m k,
                 In m done /\ (1 <= k <= length (dir_parts m))%nat
                 /\ rel = take k (dir_parts m))).
(** * Properties *)

(** ** Text *)

Lemma digits_inj (u v : uint) : digits u = digits v -> u = v.
Proof.
  revert v; induction u; intros [] H; simpl in H;
    try discriminate; try reflexivity;
    injection H as H; f_equal; auto.
Qed.

Lemma str_of_nat_inj (m n : nat) : str_of_nat m = str_of_nat n -> m = n.
Proof.
  intros H%digits_inj.
  rewrite <- (DecimalNat.Unsigned.of_to m), <- (DecimalNat.Unsigned.of_to n).
  now f_equal.
Qed.

Lemma rfind_some (c : N) (s : pystr) (i : nat) :
  rfind c s = Some i ->
  s !! i = Some c /\ ~ In c (drop (S i) s).
Proof.
  revert i; induction s as [|x r IH]; intros i; simpl; [discriminate|].
  destruct (rfind c r) as [j|] eqn:E.
  - intros [= <-]. destruct (IH j eq_refl) as [H1 H2]. simpl. auto.
  - destruct (N.eqb_spec x c) as [->|]; [|discriminate].
    intros [= <-]. split; [reflexivity|]. simpl. rewrite drop_0.
    clear IH. induction r as [|y r IH]; simpl in *; [tauto|].
    destruct (rfind c r); [discriminate|].
    destruct (N.eqb_spec y c); [discriminate|].
    intros [?|?]; [congruence|]. now apply IH.
Qed.

Lemma rfind_none (c : N) (s : pystr) : rfind c s = None -> ~ In c s.
Proof.
  induction s as [|x r IH]; simpl; [tauto|].
  destruct (rfind c r); [discriminate|].
  destruct (N.eqb_spec x c); [discriminate|].
  intros _ [?|?]; [congruence|]. now apply IH.
Qed.

Lemma rfind_lt (c : N) (s : pystr) (i : nat) :
  rfind c s = Some i -> (i < length s)%nat.
Proof.
  intros [H _]%rfind_some. now apply lookup_lt_Some in H.
Qed.

(** ** Display width *)

Module WidthFacts.
Import Width.

Lemma char_width_bounds (c : N) : 1 <= char_width c <= 2.
Proof. unfold char_width. destruct (127 <? c)%N; lia. Qed.

Lemma wcswidth_app (a b : pystr) : wcswidth (a ++ b) = wcswidth a + wcswidth b.
Proof. induction a as [|c a IH]; simpl; lia. Qed.

Lemma wcswidth_nonneg (s : pystr) : 0 <= wcswidth s.
Proof.
  induction s as [|c s IH]; simpl; [lia|].
  pose proof (char_width_bounds c). lia.
Qed.

Lemma wcswidth_le_length (s : pystr) : wcswidth s <= 2 * Z.of_nat (length s).
Proof.
  induction s as [|c s IH]; simpl length; simpl wcswidth; [lia|].
  pose proof (char_width_bounds c). lia.
Qed.

Lemma split_ext_app (text : pystr) :
  fst (split_ext text) ++ snd (split_ext text) = text.
Proof.
  unfold split_ext. destruct (rfind _ text) as [i|]; simpl.
  - destruct (_ <=? 8); simpl; [apply take_drop | apply app_nil_r].
  - apply app_nil_r.
Qed.

Lemma split_ext_length (text : pystr) :
  (length (snd (split_ext text)) <= 8)%nat.
Proof.
  unfold split_ext. destruct (rfind _ text) as [i|] eqn:E; simpl; [|lia].
  destruct (Z.leb_spec (Z.of_nat (length text) - Z.of_nat i) 8); simpl; [|lia].
  rewrite length_drop. lia.
Qed.

(** An extension that was detected starts at a dot and has no other dot. *)
Lemma split_ext_dot (text : pystr) (c : N) (e : pystr) :
  snd (split_ext text) = c :: e -> c = ch "." /\ ~ In (ch ".") e.
Proof.
  unfold split_ext. destruct (rfind _ text) as [i|] eqn:E; simpl; [|discriminate].
  destruct (_ <=? 8); simpl; [|discriminate].
  intros H. apply rfind_some in E as [E1 E2].
  rewrite (drop_S _ _ _ E1) in H. injection H as <- <-. auto.
Qed.

Lemma tail_loop_width (rbase tail : pystr) (w : Z) :
  w = wcswidth tail -> w <= 4 ->
  snd (tail_loop rbase tail w) = wcswidth (fst (tail_loop rbase tail w))
  /\ snd (tail_loop rbase tail w) <= 4.
Proof.
  revert tail w; induction rbase as [|c r IH]; intros tail w Hw Hle; simpl.
  - auto.
  - destruct (Z.ltb_spec 4 (w + (char_width c + 0))); simpl; [auto|].
    apply IH; simpl; lia.
Qed.

Lemma prefix_loop_width (cs tail : pystr) (pmw : Z) (prefix : pystr) :
  wcswidth (prefix_loop cs tail pmw prefix) <= Z.max (wcswidth prefix) pmw.
Proof.
  revert prefix; induction cs as [|c r IH]; intros prefix; simpl; [lia|].
  destruct (char_in c tail); [lia|].
  destruct (Z.ltb_spec pmw (wcswidth prefix + (char_width c + 0))); [lia|].
  specialize (IH (prefix ++ [c])). rewrite wcswidth_app in IH. simpl in IH. lia.
Qed.

Lemma fallback_loop_width (cs base tail : pystr) (pmw : Z) (prefix : pystr) :
  wcswidth (fallback_loop cs base tail pmw prefix)
  <= Z.max (wcswidth prefix) pmw.
Proof.
  revert prefix; induction cs as [|c r IH]; intros prefix; simpl; [lia|].
  destruct (_ && _); [|apply IH].
  destruct (Z.leb_spec (wcswidth (prefix ++ [c])) pmw); [|lia].
  specialize (IH (prefix ++ [c])). lia.
Qed.

(** The width of a truncation in terms of what the function reserves:
    within [max_width] as soon as ellipsis, a full tail and the extension
    fit. *)
Lemma truncate_width_bound (text : pystr) (max_width : Z) :
  wcswidth (truncate_to_display_width text max_width)
  <= Z.max max_width (7 + wcswidth (snd (split_ext text))).
Proof.
  unfold truncate_to_display_width.
  destruct (Z.leb_spec (wcswidth text) max_width); [lia|].
  destruct (split_ext text) as [base ext]; simpl snd.
  change (wcswidth (lit "...")) with 3.
  destruct (Z.leb_spec max_width (3 + wcswidth ext)).
  - rewrite wcswidth_app. change (wcswidth (lit "...")) with 3. lia.
  - destruct (tail_loop_width (rev base) [] 0 eq_refl) as [Ht Hle]; [lia|].
    destruct (tail_loop (rev base) [] 0) as [tail tw]; simpl in Ht, Hle.
    subst tw. rewrite !wcswidth_app. change (wcswidth (lit "...")) with 3.
    pose proof (wcswidth_nonneg tail).
    set (pmw := max_width - (wcswidth tail + 3 + wcswidth ext)).
    pose proof (prefix_loop_width base tail pmw []) as Hp.
    change (wcswidth []) with 0 in Hp.
    destruct (is_empty _ && _) eqn:Hc.
    + pose proof (fallback_loop_width base base tail pmw
                    (prefix_loop base tail pmw [])) as Hf.
      subst pmw. lia.
    + subst pmw. lia.
Qed.

Lemma truncate_width_ok (text : pystr) (max_width : Z) :
  7 + wcswidth (snd (split_ext text)) <= max_width ->
  wcswidth (truncate_to_display_width text max_width) <= max_width.
Proof. intros H. pose proof (truncate_width_bound text max_width). lia. Qed.

(** At the width of the name column, 48 cells, the cell always fits. *)
Lemma truncate_width_name_column (text : pystr) :
  wcswidth (truncate_to_display_width text 48) <= 48.
Proof.
  apply truncate_width_ok.
  pose proof (wcswidth_le_length (snd (split_ext text))).
  pose proof (split_ext_length text). lia.
Qed.

(** The result ends with the extension that [split_ext] detects. *)
Lemma truncate_keeps_ext (text : pystr) (max_width : Z) :
  exists front,
    truncate_to_display_width text max_width
    = front ++ snd (split_ext text).
Proof.
  unfold truncate_to_display_width.
  destruct (wcswidth text <=? max_width).
  - exists (fst (split_ext text)). symmetry. apply split_ext_app.
  - destruct (split_ext text) as [base ext]; simpl snd.
    destruct (max_width <=? _).
    + now exists (lit "...").
    + destruct (tail_loop (rev base) [] 0) as [tail tw].
      eexists. rewrite !app_assoc. reflexivity.
Qed.

End WidthFacts.

(** C1: [truncate_to_display_width] does not keep every result within
    [max_width] outside the documented case.  For the name [abcdefgh.gb] and
    a width of 7 the extension [.gb] is detected and ellipsis plus extension
    take 6 cells, which fit; the function still keeps a tail of 4 cells and
    returns [...efgh.gb], 10 cells wide.  The result does end with the
    extension. *)
Theorem truncate_exceeds_max_width :
  let text := lit "abcdefgh.gb" in
  let result := Width.truncate_to_display_width text 7 in
  snd (Width.split_ext text) = lit ".gb"
  /\ Width.wcswidth (lit "..." ++ snd (Width.split_ext text)) = 6
  /\ result = lit "...efgh.gb"
  /\ Width.wcswidth result = 10
  /\ ~ Width.wcswidth result <= 7.
Proof. vm_compute. repeat split; try reflexivity. intros H; apply H; reflexivity. Qed.

(** ** ROM classifier *)

Module ClassifierFacts.
Import Classifier.

Lemma classify_cases (v : N) :
  classify v =
    if decide (v = 0x00%N) then Some GB
    else if decide (v = 0x80%N \/ v = 0xC0%N) then Some GBC
    else None.
Proof.
  unfold classify.
  destruct (N.eqb_spec v 0) as [->|H0]; [reflexivity|].
  rewrite decide_False by assumption.
  destruct (N.eqb_spec v 128) as [->|H1]; [reflexivity|].
  destruct (N.eqb_spec v 192) as [->|H2]; [reflexivity|].
  rewrite decide_False by tauto. reflexivity.
Qed.

Lemma detect_file (fs : fsys) (p : Path) (data : list Byte.byte) :
  fs !! p = Some (File data) ->
  detect_gb_type fs p =
    match data !! 0x143%nat with
    | Some b => classify (Byte.to_N b)
    | None => None
    end.
Proof.
  intros H. unfold detect_gb_type, open_rb, read_header. rewrite H.
  destruct (data !! _); reflexivity.
Qed.

End ClassifierFacts.

(** C5: [detect_gb_type] looks only at the byte at offset 0x143: 0x00 gives
    GB, 0x80 and 0xC0 give GBC, any other value gives no type; a path that is
    missing or cannot be opened for reading, and a file of fewer than 0x144
    bytes, give no type, as a value and not as an exception. *)
Theorem detect_gb_type_spec (fs : fsys) (p : Path) :
  (fs !! p = None -> Classifier.detect_gb_type fs p = None)
  /\ (fs !! p = Some Dir -> Classifier.detect_gb_type fs p = None)
  /\ (forall data,
        fs !! p = Some (File data) -> (length data < 0x144)%nat ->
        Classifier.detect_gb_type fs p = None)
  /\ (forall data b,
        fs !! p = Some (File data) -> data !! 0x143%nat = Some b ->
        (b = Byte.x00 ->
         Classifier.detect_gb_type fs p = Some Classifier.GB)
        /\ (b = Byte.x80 \/ b = Byte.xc0 ->
            Classifier.detect_gb_type fs p = Some Classifier.GBC)
        /\ (b <> Byte.x00 -> b <> Byte.x80 -> b <> Byte.xc0 ->
            Classifier.detect_gb_type fs p = None))
  /\ (forall data fs' p' data',
        fs !! p = Some (File data) -> fs' !! p' = Some (File data') ->
        data !! 0x143%nat = data' !! 0x143%nat ->
        Classifier.detect_gb_type fs p = Classifier.detect_gb_type fs' p').
Proof.
  split; [|split; [|split; [|split]]].
  - intros H. unfold Classifier.detect_gb_type, open_rb. now rewrite H.
  - intros H. unfold Classifier.detect_gb_type, open_rb. now rewrite H.
  - intros data H Hlen. rewrite (ClassifierFacts.detect_file _ _ _ H).
    rewrite (lookup_ge_None_2 data 0x143%nat); [reflexivity|].
    change 0x144%nat with (S 0x143%nat) in Hlen. lia.
  - intros data b H Hb. rewrite (ClassifierFacts.detect_file _ _ _ H), Hb.
    split; [|split].
    + now intros ->.
    + now intros [-> | ->].
    + intros H0 H1 H2. destruct b; try reflexivity; congruence.
  - intros data fs' p' data' H H' E.
    rewrite (ClassifierFacts.detect_file _ _ _ H),
      (ClassifierFacts.detect_file _ _ _ H'), E.
    reflexivity.
Qed.

Lemma detect_gb_type_spec_witness :
  let fs : fsys := {[ [lit "a.gb"] := File (rom_with_header Byte.xc0) ]} in
  Classifier.detect_gb_type fs [lit "missing.gb"] = None
  /\ Classifier.detect_gb_type fs [lit "a.gb"] = Some Classifier.GBC.
Proof.
  intros fs. split.
  - apply (proj1 (detect_gb_type_spec fs [lit "missing.gb"])).
    vm_compute. reflexivity.
  - destruct (detect_gb_type_spec fs [lit "a.gb"]) as (_ & _ & _ & H & _).
    apply (H (rom_with_header Byte.xc0) Byte.xc0).
    + vm_compute. reflexivity.
    + vm_compute. reflexivity.
    + right. reflexivity.
Defined.

(** C6: when a type is detected, [check_rom] compares the lower-cased suffix
    of the path with the extension expected for the type ([.gb] for GB,
    [.gbc] for GBC): equal gives OK with an empty suggestion, different gives
    MISMATCH with the expected extension as suggestion. *)
Theorem check_rom_typed (fs : fsys) (p : Path) (d : pystr)
    (t : Classifier.gb_type) :
  Classifier.detect_gb_type fs p = Some t ->
  let expected :=
    match t with Classifier.GB => lit ".gb" | Classifier.GBC => lit ".gbc" end in
  (lower (path_suffix p) = expected ->
   Classifier.check_rom fs p d = (d, Classifier.OK, []))
  /\ (lower (path_suffix p) <> expected ->
      Classifier.check_rom fs p d = (d, Classifier.MISMATCH, expected)).
Proof.
  intros Ht expected. unfold Classifier.check_rom. rewrite Ht.
  replace (Classifier.exp_ext t) with expected by now destruct t.
  unfold pystr_eqb. split; intros H.
  - rewrite bool_decide_eq_true_2 by assumption. reflexivity.
  - rewrite bool_decide_eq_false_2 by assumption. reflexivity.
Qed.

(** The two examples of the classification: header 0x00 under the name
    [game.GB], and header 0xC0 under the name [game.gb]. *)
Lemma check_rom_typed_witness :
  let fs : fsys :=
    {[ [lit "roms"; lit "game.GB"] := File (rom_with_header Byte.x00);
       [lit "roms"; lit "game.gb"] := File (rom_with_header Byte.xc0) ]} in
  Classifier.check_rom fs [lit "roms"; lit "game.GB"] (lit "game.GB")
  = (lit "game.GB", Classifier.OK, [])
  /\ Classifier.check_rom fs [lit "roms"; lit "game.gb"] (lit "game.gb")
     = (lit "game.gb", Classifier.MISMATCH, lit ".gbc").
Proof.
  intros fs. split.
  - apply (check_rom_typed fs [lit "roms"; lit "game.GB"] (lit "game.GB")
             Classifier.GB); vm_compute; reflexivity.
  - apply (check_rom_typed fs [lit "roms"; lit "game.gb"] (lit "game.gb")
             Classifier.GBC).
    + vm_compute. reflexivity.
    + vm_compute. discriminate.
Defined.

(** C4, as stated, fails: for a file whose header byte is 0x55 no type is
    detected and the verdict's suggestion is not the empty text. *)
Lemma check_rom_unknown_suggestion_nonempty :
  let fs : fsys := {[ [lit "x.gb"] := File (rom_with_header Byte.x55) ]} in
  Classifier.detect_gb_type fs [lit "x.gb"] = None
  /\ Classifier.check_rom fs [lit "x.gb"] (lit "x.gb")
     <> (lit "x.gb", Classifier.UNKNOWN, []).
Proof. split; [vm_compute; reflexivity | vm_compute; discriminate]. Qed.

(** C4, amended: when no type is detected (the header byte is none of 0x00,
    0x80, 0xC0, or the file is missing, unreadable or too short), [check_rom]
    returns the display name, the UNKNOWN symbol and the suggestion [?],
    whatever the extension. *)
Theorem check_rom_unknown (fs : fsys) (p : Path) (d : pystr) :
  Classifier.detect_gb_type fs p = None ->
  Classifier.check_rom fs p d = (d, Classifier.UNKNOWN, lit "?").
Proof. intros H. unfold Classifier.check_rom. now rewrite H. Qed.

Lemma check_rom_unknown_witness :
  let fs : fsys := {[ [lit "x.gbc"] := File (rom_with_header Byte.x55) ]} in
  Classifier.check_rom fs [lit "x.gbc"] (lit "x.gbc")
  = (lit "x.gbc", Classifier.UNKNOWN, lit "?")
  /\ Classifier.check_rom fs [lit "gone.gb"] (lit "gone.gb")
     = (lit "gone.gb", Classifier.UNKNOWN, lit "?").
Proof.
  intros fs. split; apply (check_rom_unknown fs); vm_compute; reflexivity.
Defined.

(** ** 7z extraction *)

Lemma startswith_spec (p s : pystr) :
  startswith p s = true <-> exists r, s = p ++ r.
Proof.
  revert s; induction p as [|a p IH]; intros s; simpl.
  - split; [intros _; now exists s | reflexivity].
  - destruct s as [|b s].
    + split; [discriminate | intros [r [=]]].
    + rewrite andb_true_iff, IH, N.eqb_eq. split.
      * intros [-> [r ->]]. now exists r.
      * intros [r [= -> ->]]. eauto.
Qed.

(** [contains] is the substring test. *)
Lemma contains_spec (needle hay : pystr) :
  contains needle hay = true <-> exists a b, hay = a ++ needle ++ b.
Proof.
  induction hay as [|c hay IH]; simpl.
  - rewrite orb_false_r, startswith_spec. split.
    + intros [r ->]. now exists [], r.
    + intros (a & b & H). destruct a; [|discriminate]. now exists b.
  - rewrite orb_true_iff, startswith_spec, IH. split.
    + intros [[r ->] | (a & b & ->)]; [now exists [], r | now exists (c :: a), b].
    + intros (a & b & H). destruct a as [|x a]; simpl in H.
      * left. now exists b.
      * right. injection H as -> ->. now exists a, b.
Qed.

(** C7: the outcome of the extraction utility is classified by its captured
    output and exit status, in this order: the phrase [No files to process]
    in either stream gives an empty list with the no-match message; failing
    that, a non-zero exit code gives an empty list and the failure message
    followed by an excerpt of at most 80 characters of the stripped
    diagnostic output; an expired timeout gives the timeout message; any
    other exception gives the exception message with its text.  A missing
    utility gives its own message.  In each case the function returns a list
    and a message. *)
Theorem extract_7za_classifies (exn_str : exn -> pystr) (seven_zip : Path)
    (run_7za : Path -> Path -> fsys -> fsys * run_result)
    (archive_path out_dir : Path) (fs : fsys) :
  let result :=
    extract_gb_gbc_with_7za exn_str seven_zip run_7za archive_path out_dir fs in
  (path_exists fs seven_zip = false -> result = (fs, ([], msg_no_7za)))
  /\ (path_exists fs seven_zip = true ->
      forall fs',
        (forall rc out err,
           run_7za archive_path out_dir fs = (fs', Completed rc out err) ->
           (contains no_files_to_process err = true
            \/ contains no_files_to_process out = true ->
            result = (fs', ([], msg_no_match)))
           /\ (contains no_files_to_process err = false ->
               contains no_files_to_process out = false ->
               rc <> 0 ->
               exists excerpt,
                 result = (fs', ([], msg_extract_failed ++ excerpt))
                 /\ (length excerpt <= 80)%nat
                 /\ excerpt =
                      take 80 (if is_empty (strip err)
                               then strip out else strip err)))
        /\ (run_7za archive_path out_dir fs = (fs', TimeoutExpired) ->
            result = (fs', ([], msg_timeout)))
        /\ (forall e,
              run_7za archive_path out_dir fs = (fs', RunRaised e) ->
              result = (fs', ([], msg_exception ++ exn_str e)))).
Proof.
  intros result. subst result. unfold extract_gb_gbc_with_7za.
  split; intros Hex; rewrite Hex; simpl; [reflexivity|].
  intros fs'. split; [|split].
  - intros rc out err ->. split.
    + intros H. apply orb_true_iff in H. now rewrite H.
    + intros -> -> Hrc. simpl.
      destruct (Z.eqb_spec rc 0) as [|_]; [contradiction|]. simpl.
      eexists. split; [reflexivity|]. split; [|reflexivity].
      rewrite length_take. lia.
  - now intros ->.
  - now intros e ->.
Qed.

Lemma extract_7za_classifies_witness :
  let fs : fsys := {[ [lit "7za.exe"] := File [] ]} in
  let failing (_ _ : Path) (fs : fsys) :=
    (fs, Completed 2 [] (lit "  ERROR: bad archive ")) in
  extract_gb_gbc_with_7za (fun _ => lit "error") [lit "7za.exe"] failing
    [lit "a.7z"] [lit "tmp"] fs
  = (fs, ([], msg_extract_failed ++ lit "ERROR: bad archive")).
Proof.
  intros fs failing.
  destruct (extract_7za_classifies (fun _ => lit "error") [lit "7za.exe"]
              failing [lit "a.7z"] [lit "tmp"] fs) as [_ H].
  destruct (H eq_refl fs) as [H1 _].
  destruct (H1 2 [] (lit "  ERROR: bad archive ") eq_refl) as [_ H2].
  destruct (H2 eq_refl eq_refl) as (excerpt & -> & _ & ->); [discriminate|].
  reflexivity.
Defined.

(** ** Folder collector *)

Module FolderFacts.
Import Folder.

Lemma tree_induction (P : tree -> Prop) :
  (forall files dirs, Forall (fun d => P (snd d)) dirs -> P (Node files dirs)) ->
  forall t, P t.
Proof.
  intros H. fix IH 1. intros [files dirs]. apply H.
  induction dirs as [|[n sub] r IHr]; constructor; [apply IH | apply IHr].
Qed.

Lemma walk_spec (t : tree) :
  forall root r files,
    In (r, files) (walk root t)
    <-> exists dirs, r = root ++ dirs /\ dir_at dirs t files.
Proof.
  induction t as [fs subs IH] using tree_induction.
  intros root r files. simpl. rewrite in_flat_map. split.
  - intros [[= <- <-] | ([n sub] & Hin & Hw)].
    + exists []. now rewrite app_nil_r.
    + rewrite List.Forall_forall in IH. apply (IH _ Hin) in Hw as (ds & -> & Hd).
      exists (n :: ds). rewrite <- app_assoc. split; [reflexivity|].
      simpl. eauto.
  - intros ([|d ds] & -> & Hd); simpl in Hd.
    + left. now rewrite app_nil_r, Hd.
    + right. destruct Hd as (sub & Hin & Hd). exists (d, sub).
      split; [assumption|]. rewrite List.Forall_forall in IH.
      apply (IH _ Hin). exists ds. now rewrite <- app_assoc.
Qed.

Lemma valid_name_facts (n : pystr) :
  valid_name n = true ->
  n <> [] /\ ~ In sep n /\ n <> lit "." /\ n <> lit "..".
Proof.
  unfold valid_name, pystr_eqb. rewrite !andb_true_iff, !negb_true_iff.
  intros [[[H1 H2] H3] H4].
  apply bool_decide_eq_false in H3, H4.
  repeat split; try assumption.
  - now destruct n.
  - intros Hin. unfold char_in in H2.
    assert (existsb (N.eqb sep) n = true) as E; [|congruence].
    apply existsb_exists. exists sep. split; [assumption | apply N.eqb_refl].
Qed.

Lemma wf_tree_dir_at (dirs : list pystr) :
  forall t files,
    wf_tree t = true -> dir_at dirs t files ->
    Forall (fun n => valid_name n = true) dirs
    /\ Forall (fun n => valid_name n = true) files.
Proof.
  induction dirs as [|d ds IH]; intros [fs subs] files Hwf Hd; simpl in *.
  - subst. apply andb_true_iff in Hwf as [Hf _].
    split; [constructor|]. apply List.Forall_forall.
    now apply forallb_forall.
  - destruct Hd as (sub & Hin & Hd).
    apply andb_true_iff in Hwf as [_ Hs].
    rewrite forallb_forall in Hs. specialize (Hs _ Hin). simpl in Hs.
    apply andb_true_iff in Hs as [Hn Hsub].
    destruct (IH _ _ Hsub Hd) as [H1 H2]. split; [constructor|]; assumption.
Qed.

Lemma split_on_absent (c : N) (s : pystr) : ~ In c s -> split_on c s = [s].
Proof.
  induction s as [|x r IH]; simpl; [reflexivity|].
  intros H. rewrite IH by tauto.
  destruct (N.eqb_spec x c); [tauto | reflexivity].
Qed.

Lemma joinpath_name (root : Path) (n : pystr) :
  n <> [] -> ~ In (ch "/") n -> n <> lit "." -> joinpath root n = root ++ [n].
Proof.
  intros H1 H2 H3. unfold joinpath, parse_parts.
  rewrite split_on_absent by assumption.
  rewrite filter_cons_True by auto. rewrite filter_nil.
  assert (startswith (lit "/") n = false) as ->; [|reflexivity].
  destruct n as [|x n]; [contradiction|].
  change (startswith (lit "/") (x :: n)) with (N.eqb 47 x && true).
  destruct (N.eqb_spec 47 x) as [<-|]; [|reflexivity].
  exfalso. apply H2. now left.
Qed.

Lemma relative_to_app (folder rest : Path) :
  relative_to (folder ++ rest) folder = Some rest.
Proof.
  induction folder as [|a folder IH]; simpl; [now destruct rest|].
  unfold pystr_eqb. now rewrite bool_decide_eq_true_2.
Qed.

Lemma replace_char_absent (s : pystr) :
  ~ In sep s -> replace_char sep arrow s = s.
Proof.
  induction s as [|x r IH]; simpl; [reflexivity|].
  intros H. unfold replace_char in *. simpl.
  destruct (N.eqb_spec x sep); [tauto|]. simpl. f_equal. apply IH. tauto.
Qed.

Lemma replace_char_app (a b : pystr) :
  replace_char sep arrow (a ++ b)
  = replace_char sep arrow a ++ replace_char sep arrow b.
Proof. unfold replace_char. apply flat_map_app. Qed.

Lemma replace_join (parts : list pystr) :
  Forall (fun n => ~ In sep n) parts ->
  replace_char sep arrow (join [sep] parts) = join arrow parts.
Proof.
  induction 1 as [|p ps Hp Hps IH]; [reflexivity|].
  destruct ps as [|q ps].
  - now apply replace_char_absent.
  - change (join [sep] (p :: q :: ps))
      with (p ++ [sep] ++ join [sep] (q :: ps)).
    change (join arrow (p :: q :: ps))
      with (p ++ arrow ++ join arrow (q :: ps)).
    rewrite !replace_char_app, IH, replace_char_absent by assumption.
    reflexivity.
Qed.

Lemma display_valid (folder : Path) (rel : list pystr) (f : pystr) :
  Forall (fun n => valid_name n = true) rel -> rel <> [] ->
  display folder (folder ++ rel) f = join arrow rel.
Proof.
  intros Hv Hne. unfold display. rewrite relative_to_app.
  assert (Forall (fun n => ~ In sep n) rel) as Hs.
  { eapply List.Forall_impl; [|exact Hv]. intros n Hn.
    now apply valid_name_facts in Hn. }
  destruct rel as [|r0 rel]; [contradiction|].
  unfold path_str, pystr_eqb. rewrite bool_decide_eq_false_2.
  - now apply replace_join.
  - apply List.Forall_inv in Hs. intros ->. apply Hs. now left.
Qed.

End FolderFacts.

(** C8: over a tree of directory-entry names, the folder collector yields
    exactly the files whose name ends, whatever the case, in [.gb] or
    [.gbc]; each comes with its path under the scanned root and, as display
    name, the parts of that path relative to the root joined by the arrow;
    and where the relative path cannot be computed the display name is the
    bare file name. *)
Theorem collect_from_folder_display (folder : Path) (t : Folder.tree) :
  Folder.wf_tree t = true ->
  (forall p disp,
     In (p, disp) (Folder.collect_from_folder folder t)
     <-> exists dirs f,
           Folder.file_at dirs t f /\ is_rom_name f = true
           /\ p = folder ++ dirs ++ [f]
           /\ disp = join Folder.arrow (dirs ++ [f]))
  /\ (forall p f,
        Folder.relative_to p folder = None -> Folder.display folder p f = f).
Proof.
  intros Hwf. split.
  - intros p disp. unfold Folder.collect_from_folder. rewrite in_flat_map.
    split.
    + intros ([root files] & Hw & Hin).
      apply FolderFacts.walk_spec in Hw as (dirs & -> & Hd).
      apply in_map_iff in Hin as (f & [= <- <-] & Hf).
      apply list_elem_of_In, list_elem_of_filter in Hf as [Hrom Hf].
      apply list_elem_of_In in Hf.
      destruct (FolderFacts.wf_tree_dir_at _ _ _ Hwf Hd) as [Hvd Hvf].
      rewrite List.Forall_forall in Hvf.
      pose proof (Hvf _ Hf) as Hv.
      apply FolderFacts.valid_name_facts in Hv as (H1 & H2 & H3 & _).
      exists dirs, f. rewrite FolderFacts.joinpath_name by assumption.
      rewrite <- app_assoc.
      split; [now exists files|]. split; [now apply Is_true_true|].
      split; [reflexivity|].
      apply FolderFacts.display_valid.
      * apply List.Forall_app. split; [assumption|]. constructor; [|constructor].
        now apply Hvf.
      * now destruct dirs.
    + intros (dirs & f & (files & Hd & Hf) & Hrom & -> & ->).
      exists (folder ++ dirs, files). split.
      * apply FolderFacts.walk_spec. eauto.
      * destruct (FolderFacts.wf_tree_dir_at _ _ _ Hwf Hd) as [Hvd Hvf].
        rewrite List.Forall_forall in Hvf.
        pose proof (Hvf _ Hf) as Hv.
        apply FolderFacts.valid_name_facts in Hv as (H1 & H2 & H3 & _).
        apply in_map_iff. exists f.
        rewrite FolderFacts.joinpath_name by assumption.
        rewrite <- app_assoc. split.
        -- f_equal. apply FolderFacts.display_valid.
           ++ apply List.Forall_app. split; [assumption|].
              constructor; [|constructor]. now apply Hvf.
           ++ now destruct dirs.
        -- apply list_elem_of_In, list_elem_of_filter.
           split; [now apply Is_true_true | now apply list_elem_of_In].
  - intros p f H. unfold Folder.display. now rewrite H.
Qed.

Lemma collect_from_folder_display_witness :
  In ([lit "root"; lit "x"; lit "y.gb"], lit "x" ++ Folder.arrow ++ lit "y.gb")
    (Folder.collect_from_folder [lit "root"]
       (Folder.Node [] [(lit "x", Folder.Node [lit "y.gb"; lit "notes.txt"] [])])).
Proof.
  apply (proj1 (collect_from_folder_display [lit "root"]
                  (Folder.Node []
                     [(lit "x", Folder.Node [lit "y.gb"; lit "notes.txt"] [])])
                  eq_refl)).
  exists [lit "x"], (lit "y.gb").
  split; [|split; [reflexivity | split; reflexivity]].
  exists [lit "y.gb"; lit "notes.txt"]. split; [|now left].
  exists (Folder.Node [lit "y.gb"; lit "notes.txt"] []).
  split; [now left | reflexivity].
Defined.

(** ** Verification scheduler *)

Module SchedulerFacts.
Import Scheduler.

Lemma as_completed_perm (pending : gmap nat verdict) (results : list verdict) :
  as_completed pending results ->
  Permutation results (map snd (map_to_list pending)).
Proof.
  induction 1 as [|pending i v results Hi _ IH].
  - now rewrite map_to_list_empty.
  - rewrite <- (map_to_list_delete pending i v Hi). simpl.
    now constructor.
Qed.

Lemma as_completed_total (pending : gmap nat verdict) :
  exists results, as_completed pending results.
Proof.
  induction pending as [|i v m Hi IH] using map_ind.
  - exists []. constructor.
  - destruct IH as [results IH]. exists (v :: results).
    apply (completed_next _ i).
    + apply lookup_insert_eq.
    + now rewrite delete_insert_id.
Qed.

Lemma submitted_keys {A B} (g : A -> B) (l : list A) (k : nat) :
  map fst (imap (fun i r => (k + i, g r)%nat) l) = seq k (length l).
Proof.
  revert k; induction l as [|x l IH]; intros k; [reflexivity|].
  rewrite imap_cons. simpl. rewrite Nat.add_0_r. f_equal.
  rewrite <- IH. f_equal. apply imap_ext. intros i y _. simpl.
  f_equal. lia.
Qed.

Lemma submitted_values {A B} (g : A -> B) (l : list A) (k : nat) :
  map snd (imap (fun i r => (k + i, g r)%nat) l) = map g l.
Proof.
  revert k; induction l as [|x l IH]; intros k; [reflexivity|].
  rewrite imap_cons. simpl. f_equal.
  rewrite <- (IH (S k)). f_equal. apply imap_ext. intros i y _. simpl.
  f_equal. lia.
Qed.

Lemma submit_all_list (fs : fsys) (all_roms : list (Path * pystr)) :
  Permutation (map snd (map_to_list (submit_all fs all_roms)))
    (check_all fs all_roms).
Proof.
  unfold submit_all, check_all.
  set (g := fun r : Path * pystr => Classifier.check_rom fs r.1 r.2).
  rewrite map_to_list_to_map.
  - change (imap _ all_roms)
      with (imap (fun i r => (0 + i, g r)%nat) all_roms).
    now rewrite submitted_values.
  - change (NoDup (map fst (imap (fun i r => (0 + i, g r)%nat) all_roms))).
    rewrite submitted_keys. apply NoDup_seq.
Qed.

End SchedulerFacts.

(** C9: whatever the order in which the futures complete, a run of the
    scheduler over a list of collected ROMs exists, and the verdicts it
    collects are a permutation of [check_rom] mapped over the list: one
    verdict per element, equal elements and equal display names included. *)
Theorem scheduler_collects_each_once (fs : fsys)
    (all_roms : list (Path * pystr)) :
  (exists results,
     Scheduler.as_completed (Scheduler.submit_all fs all_roms) results)
  /\ (forall results,
        Scheduler.as_completed (Scheduler.submit_all fs all_roms) results ->
        Permutation results (Scheduler.check_all fs all_roms)
        /\ length results = length all_roms).
Proof.
  split; [apply SchedulerFacts.as_completed_total|].
  intros results H.
  assert (Permutation results (Scheduler.check_all fs all_roms)) as HP.
  { etransitivity; [apply SchedulerFacts.as_completed_perm, H|].
    apply SchedulerFacts.submit_all_list. }
  split; [assumption|].
  rewrite (Permutation_length HP). unfold Scheduler.check_all.
  apply length_map.
Qed.

(** Three submissions, two of them for the same ROM, completing out of
    order. *)
Lemma scheduler_collects_each_once_witness :
  let fs : fsys :=
    {[ [lit "a.gb"] := File (rom_with_header Byte.x00);
       [lit "b.gb"] := File (rom_with_header Byte.xc0) ]} in
  let all_roms :=
    [([lit "a.gb"], lit "a.gb"); ([lit "b.gb"], lit "b.gb");
     ([lit "a.gb"], lit "a.gb")] in
  let results :=
    [(lit "b.gb", Classifier.MISMATCH, lit ".gbc");
     (lit "a.gb", Classifier.OK, []);
     (lit "a.gb", Classifier.OK, [])] in
  Permutation results (Scheduler.check_all fs all_roms)
  /\ length results = length all_roms.
Proof.
  intros fs all_roms results.
  apply (proj2 (scheduler_collects_each_once fs all_roms) results).
  apply (Scheduler.completed_next _ 1%nat); [vm_compute; reflexivity|].
  apply (Scheduler.completed_next _ 2%nat); [vm_compute; reflexivity|].
  apply (Scheduler.completed_next _ 0%nat); [vm_compute; reflexivity|].
  vm_compute. apply Scheduler.completed_all.
Defined.

(** ** Zip extraction: the renaming loop *)

Module ZipFacts.

Lemma digits_no_sep (u : uint) : ~ In (ch "/") (digits u).
Proof.
  induction u; simpl; try tauto; intros [H|H]; try discriminate; tauto.
Qed.

Lemma basename_no_sep (s : pystr) : ~ In (ch "/") (basename s).
Proof.
  unfold basename. destruct (rfind _ s) as [i|] eqn:E.
  - now apply rfind_some in E.
  - now apply rfind_none.
Qed.

Lemma splitext_app (s : pystr) : fst (splitext s) ++ snd (splitext s) = s.
Proof.
  unfold splitext. destruct (_ <? _); [|apply app_nil_r].
  destruct (forallb _ _); simpl; [apply app_nil_r | apply take_drop].
Qed.

Lemma splitext_no_sep (s : pystr) :
  ~ In (ch "/") s ->
  ~ In (ch "/") (fst (splitext s)) /\ ~ In (ch "/") (snd (splitext s)).
Proof.
  intros H. rewrite <- (splitext_app s) in H.
  split; intros Hin; apply H, in_or_app; auto.
Qed.

Section Candidates.
Variables (out_dir : Path) (stem suffix : pystr).
Hypothesis stem_no_sep : ~ In (ch "/") stem.
Hypothesis suffix_no_sep : ~ In (ch "/") suffix.

Lemma candidate_parts (k : nat) :
  candidate out_dir stem suffix k
  = out_dir ++ [stem ++ lit "_" ++ str_of_nat k ++ suffix].
Proof.
  unfold candidate. apply FolderFacts.joinpath_name.
  - now destruct stem.
  - intros Hin. apply in_app_or in Hin as [?|Hin]; [tauto|].
    apply in_app_or in Hin as [Hin|Hin].
    + destruct Hin as [Hin|[]]. discriminate.
    + apply in_app_or in Hin as [Hin|?]; [|tauto].
      now apply digits_no_sep in Hin.
  - intros H.
    assert (In 95%N (lit ".")) as Hin; [|destruct Hin as [|[]]; discriminate].
    rewrite <- H. apply in_or_app. right. now left.
Qed.

Lemma candidate_inj (j k : nat) :
  candidate out_dir stem suffix j = candidate out_dir stem suffix k -> j = k.
Proof.
  rewrite !candidate_parts. intros H%app_inv_head. injection H as H.
  apply app_inv_head in H. injection H as H. apply app_inv_tail in H.
  now apply str_of_nat_inj.
Qed.

(** What the loop returns: the first path if it is free, else the first free
    candidate from [counter] on. *)
Lemma dedup_loop_some (fs : fsys) (fuel counter : nat) (out_path q : Path) :
  dedup_loop fuel fs out_dir stem suffix counter out_path = Some q ->
  path_exists fs q = false
  /\ (q = out_path
      \/ path_exists fs out_path = true
         /\ exists n,
              (counter <= n)%nat /\ q = candidate out_dir stem suffix n
              /\ forall k, (counter <= k < n)%nat ->
                   path_exists fs (candidate out_dir stem suffix k) = true).
Proof.
  revert counter out_path.
  induction fuel as [|fuel IH]; intros counter out_path; simpl;
    destruct (path_exists fs out_path) eqn:E; try discriminate;
    try (intros [= <-]; now auto).
  intros H. apply IH in H as [Hq [-> | (Hc & n & Hn & -> & Hk)]].
  - split; [assumption|]. right. split; [reflexivity|].
    exists counter. repeat split; [lia | intros k; lia].
  - split; [assumption|]. right. split; [reflexivity|].
    exists n. repeat split; [lia|].
    intros k Hk'. destruct (decide (k = counter)) as [->|]; [exact Hc|].
    apply Hk. lia.
Qed.

Lemma dedup_loop_none (fs : fsys) (fuel counter : nat) (out_path : Path) :
  dedup_loop fuel fs out_dir stem suffix counter out_path = None ->
  forall k, (counter <= k < counter + fuel)%nat ->
    path_exists fs (candidate out_dir stem suffix k) = true.
Proof.
  revert counter out_path.
  induction fuel as [|fuel IH]; intros counter out_path; simpl;
    destruct (path_exists fs out_path) eqn:E; try discriminate;
    intros H k Hk; [lia|].
  destruct (decide (k = counter)) as [->|].
  - destruct fuel; simpl in H;
      destruct (path_exists fs (joinpath _ _)) eqn:E'; try discriminate;
      exact E'.
  - apply (IH _ _ H). lia.
Qed.

(** The loop ends within [S (size fs)] renamings: the candidates are
    pairwise different and only [size fs] paths exist. *)
Lemma dedup_loop_terminates (fs : fsys) (counter : nat) (out_path : Path) :
  dedup_loop (S (size fs)) fs out_dir stem suffix counter out_path <> None.
Proof.
  intros H. pose proof (dedup_loop_none _ _ _ _ H) as Hall.
  set (l := map (candidate out_dir stem suffix) (seq counter (S (size fs)))).
  assert (NoDup l) as Hnd.
  { apply NoDup_fmap_2_strong; [|apply NoDup_seq].
    intros j k _ _. apply candidate_inj. }
  assert (list_to_set l ⊆ dom fs) as Hsub.
  { intros p Hp. apply elem_of_list_to_set, list_elem_of_fmap in Hp
      as (k & -> & Hk). apply elem_of_seq in Hk.
    apply elem_of_dom. specialize (Hall k ltac:(lia)).
    unfold path_exists in Hall. destruct (fs !! _); [eauto | discriminate]. }
  apply subseteq_size in Hsub.
  rewrite size_list_to_set, size_dom in Hsub by assumption.
  subst l. rewrite length_map, length_seq in Hsub. lia.
Qed.

End Candidates.

End ZipFacts.

(** ** Zip extraction: results *)

Module ExtractFacts.

Lemma bind_returns {A B} (m : M A) (k : A -> M B) (fs : fsys) :
  returns (m fs) -> (forall a fs', returns (k a fs')) ->
  returns ((m ≫= k) fs).
Proof.
  unfold returns, mbind, M_bind, bind. intros Hm Hk.
  destruct (m fs) as [fs' [a|e|]]; simpl in *;
    [apply Hk | discriminate | contradiction].
Qed.

Lemma bind_ok {A B} (m : M A) (k : A -> M B) (fs fs2 : fsys) (b : B) :
  (m ≫= k) fs = (fs2, Ok b) ->
  exists a fs1, m fs = (fs1, Ok a) /\ k a fs1 = (fs2, Ok b).
Proof.
  unfold mbind, M_bind, bind.
  destruct (m fs) as [fs1 [a|e|]]; try discriminate. eauto.
Qed.

Lemma mkdir_returns (p : Path) (fs : fsys) : returns (mkdir p fs).
Proof.
  unfold returns, mkdir. destruct (parent_error fs p); [discriminate|].
  destruct (stat fs p); discriminate.
Qed.

Lemma makedirs_returns (n : nat) (p : Path) :
  forall fs, returns (makedirs n p fs).
Proof.
  induction n as [|k IH]; intros fs; [discriminate|].
  cbn [makedirs]. apply bind_returns; [|intros _ fs'; apply mkdir_returns].
  destruct (stat fs (take k p)); [discriminate|].
  specialize (IH fs). unfold returns, pass_exists in *.
  destruct (makedirs k p fs) as [fs' [a|e|]];
    [discriminate | destruct e; discriminate | contradiction].
Qed.

Lemma write_file_returns (p : Path) (data : list Byte.byte) (fs : fsys) :
  returns (write_file p data fs).
Proof.
  unfold returns, write_file. destruct (parent_error fs p); [discriminate|].
  destruct (stat fs p) as [[]|]; discriminate.
Qed.

Lemma zf_extract_returns (entries : list (pystr * list Byte.byte))
    (name : pystr) (out_dir : Path) (fs : fsys) :
  returns (zf_extract entries name out_dir fs).
Proof.
  unfold zf_extract. destruct (getinfo entries name); [|discriminate].
  destruct (is_empty _); [discriminate|].
  apply bind_returns; [|intros _ fs'; apply write_file_returns].
  unfold make_upperdirs. destruct (stat fs _); [discriminate|].
  apply makedirs_returns.
Qed.

Lemma rename_returns (src dst : Path) (fs : fsys) : returns (rename src dst fs).
Proof.
  unfold returns, rename.
  destruct (parent_error fs src); [discriminate|].
  destruct (parent_error fs dst); [discriminate|].
  destruct (fs !! src) as [[]|]; try discriminate.
  destruct (is_above dst src); [discriminate|].
  destruct (stat fs dst) as [[]|]; discriminate.
Qed.

(** Where an entry goes: to its base name if that path is free, else to the
    first free [stem_N suffix], [N] counted from 1. *)
Lemma choose_out_path_spec (out_dir : Path) (filename : pystr) (fs : fsys) :
  ~ In (ch "/") filename ->
  exists q,
    choose_out_path out_dir filename fs = (fs, Ok q)
    /\ path_exists fs q = false
    /\ (q = joinpath out_dir filename
        \/ path_exists fs (joinpath out_dir filename) = true
           /\ exists n,
                (1 <= n)%nat
                /\ q = out_dir ++ [fst (splitext filename) ++ lit "_"
                                   ++ str_of_nat n ++ snd (splitext filename)]
                /\ forall k, (1 <= k < n)%nat ->
                     path_exists fs
                       (out_dir ++ [fst (splitext filename) ++ lit "_"
                                    ++ str_of_nat k ++ snd (splitext filename)])
                     = true).
Proof.
  intros Hsep. unfold choose_out_path.
  destruct (ZipFacts.splitext_no_sep _ Hsep) as [Hs1 Hs2].
  destruct (splitext filename) as [stem suffix]; cbn [fst snd] in *.
  pose proof (ZipFacts.dedup_loop_terminates out_dir stem suffix Hs1 Hs2 fs 1
                (joinpath out_dir filename)) as Hterm.
  destruct (dedup_loop _ _ _ _ _ _ _) as [q|] eqn:E; [|contradiction].
  exists q. split; [reflexivity|].
  apply ZipFacts.dedup_loop_some in E as [Hq Hcase]. split; [assumption|].
  destruct Hcase as [-> | (Hc & n & Hn & -> & Hk)]; [now left|].
  right. split; [assumption|]. exists n.
  rewrite ZipFacts.candidate_parts by assumption.
  repeat split; [assumption|].
  intros k Hk'. rewrite <- (ZipFacts.candidate_parts out_dir) by assumption.
  now apply Hk.
Qed.

Lemma extract_entry_returns (entries : list (pystr * list Byte.byte))
    (out_dir : Path) (name : pystr)
    (fs : fsys) :
  returns (extract_entry entries out_dir name fs).
Proof.
  unfold extract_entry. apply bind_returns.
  - destruct (choose_out_path_spec out_dir (basename name) fs
                (ZipFacts.basename_no_sep name)) as (q & -> & _).
    discriminate.
  - intros q fs1. apply bind_returns; [apply zf_extract_returns|].
    intros _ fs2. apply bind_returns.
    + case_bool_decide; [apply rename_returns | discriminate].
    + intros _ fs3. discriminate.
Qed.

Lemma extract_entries_returns (entries : list (pystr * list Byte.byte))
    (out_dir : Path) (names : list pystr) :
  forall roms fs, returns (extract_entries entries out_dir names roms fs).
Proof.
  induction names as [|name rest IH]; intros roms fs; simpl; [discriminate|].
  apply bind_returns; [apply extract_entry_returns|].
  intros q fs'. apply IH.
Qed.

(** The extractor always returns a list and a message: its loop ends and
    every exception is caught. *)
Lemma extract_gb_gbc_from_zip_returns (exn_str : exn -> pystr) (zf : zipfile)
    (out_dir : Path) (fs : fsys) :
  exists fs' roms msg,
    extract_gb_gbc_from_zip exn_str zf out_dir fs = (fs', Ok (roms, msg)).
Proof.
  unfold extract_gb_gbc_from_zip. destruct zf as [|entries]; [eauto|].
  destruct (is_empty _); [eauto|].
  pose proof (extract_entries_returns entries out_dir
                (gb_files (namelist entries)) [] fs) as H.
  destruct (extract_entries _ _ _ _ _) as [fs' [roms|e|]]; eauto.
  now contradiction H.
Qed.

(** The path collected for an entry was free when it was chosen, and is the
    base name of the entry or that name with [_N] before the extension. *)
Lemma extract_entry_target (entries : list (pystr * list Byte.byte))
    (out_dir : Path) (name : pystr)
    (fs fs' : fsys) (q : Path) :
  extract_entry entries out_dir name fs = (fs', Ok q) ->
  let filename := basename name in
  path_exists fs q = false
  /\ (q = joinpath out_dir filename
      \/ path_exists fs (joinpath out_dir filename) = true
         /\ exists n,
              (1 <= n)%nat
              /\ q = out_dir ++ [fst (splitext filename) ++ lit "_"
                                 ++ str_of_nat n ++ snd (splitext filename)]
              /\ forall k, (1 <= k < n)%nat ->
                   path_exists fs
                     (out_dir ++ [fst (splitext filename) ++ lit "_"
                                  ++ str_of_nat k ++ snd (splitext filename)])
                   = true).
Proof.
  intros H filename. unfold extract_entry in H.
  apply bind_ok in H as (q0 & fs1 & Hc & H).
  destruct (choose_out_path_spec out_dir filename fs
              (ZipFacts.basename_no_sep name)) as (q1 & Hq1 & Hspec).
  fold filename in Hc. rewrite Hq1 in Hc. injection Hc as <- <-.
  apply bind_ok in H as (? & fs2 & _ & H).
  apply bind_ok in H as (? & fs3 & _ & H).
  injection H as _ <-. exact Hspec.
Qed.

End ExtractFacts.

(** ** Archive collector on archives with equal base names *)

(** C2, as stated, fails: for the archive with the entries [a.gb] and
    [sub/a.gb] the collector reports the display names [a.gb] and [a_1.gb];
    the second is the renamed name, not the base name of the entry. *)
Lemma archive_display_name_is_renamed :
  let run :=
    sample_collect [(lit "a.gb", rom_with_header Byte.x00);
                    (lit "sub/a.gb", rom_with_header Byte.xc0)] in
  exists roms,
    snd run = Ok roms
    /\ map snd roms = [lit "a.gb"; lit "a_1.gb"]
    /\ ~ (forall rom, In rom roms -> snd rom = lit "a.gb").
Proof.
  eexists. split; [vm_compute; reflexivity|]. split; [reflexivity|].
  intros H. specialize (H _ (or_intror (or_introl eq_refl))). discriminate H.
Qed.

(** C3: a collected path can be gone before verification starts.  For the
    archive with the entries [sub/a.gb] and [a.gb], in this order, the first
    entry is collected as [a.gb]; extracting the second entry writes over
    that file and the renaming then moves it to [a_1.gb].  The collector
    returns both paths, no file is left at the first, the data of
    [sub/a.gb] is lost, and [check_rom] answers UNKNOWN for a ROM whose
    header and extension agree. *)
Theorem collected_path_removed_by_later_entry :
  let run :=
    sample_collect [(lit "sub/a.gb", rom_with_header Byte.x00);
                    (lit "a.gb", rom_with_header Byte.xc0)] in
  let first := sample_subdir ++ [lit "a.gb"] in
  let second := sample_subdir ++ [lit "a_1.gb"] in
  snd run = Ok [(first, lit "a.gb"); (second, lit "a_1.gb")]
  /\ fst run !! first = None
  /\ fst run !! second = Some (File (rom_with_header Byte.xc0))
  /\ (forall p, fst run !! p <> Some (File (rom_with_header Byte.x00)))
  /\ Classifier.check_rom (fst run) first (lit "a.gb")
     = (lit "a.gb", Classifier.UNKNOWN, lit "?").
Proof.
  split; [vm_compute; reflexivity|].
  split; [vm_compute; reflexivity|].
  split; [vm_compute; reflexivity|].
  split; [|vm_compute; reflexivity].
  assert (List.Forall (fun pn => snd pn <> File (rom_with_header Byte.x00))
            (map_to_list (fst (sample_collect
               [(lit "sub/a.gb", rom_with_header Byte.x00);
                (lit "a.gb", rom_with_header Byte.xc0)])))) as Hall.
  { vm_compute. repeat constructor; discriminate. }
  generalize dependent (fst (sample_collect
               [(lit "sub/a.gb", rom_with_header Byte.x00);
                (lit "a.gb", rom_with_header Byte.xc0)])).
  intros m Hall p Hp.
  apply elem_of_map_to_list, list_elem_of_In in Hp.
  rewrite List.Forall_forall in Hall. exact (Hall _ Hp eq_refl).
Qed.

(** C10: the paths returned for one archive need not be pairwise distinct.
    With the entries [sub/a.gb], [a.gb] and [sub2/a.gb], in this order, the
    second entry moves the file of the first away from [a.gb], so the third
    entry finds that name free again: the path [a.gb] is returned twice. *)
Theorem zip_targets_not_distinct :
  let out_dir := sample_subdir in
  let fs : fsys := {[ out_dir := Dir ]} in
  let zf :=
    Zip [(lit "sub/a.gb", rom_with_header Byte.x00);
         (lit "a.gb", rom_with_header Byte.xc0);
         (lit "sub2/a.gb", rom_with_header Byte.x80)] in
  let roms :=
    [out_dir ++ [lit "a.gb"]; out_dir ++ [lit "a_1.gb"];
     out_dir ++ [lit "a.gb"]] in
  snd (extract_gb_gbc_from_zip (fun _ => []) zf out_dir fs)
  = Ok (roms, msg_success)
  /\ ~ List.NoDup roms.
Proof.
  split; [vm_compute; reflexivity|].
  intros H. inversion H as [|? ? Hnotin _]. apply Hnotin.
  right. left. reflexivity.
Qed.

(** A renamed file can also lose its extension: [os.path.splitext] finds no
    extension in a name made of dots and the extension only, so the second
    entry named [.gb] becomes [.gb_1], which is no ROM name any more. *)
Lemma renamed_dot_name_loses_extension :
  let out_dir := sample_subdir in
  let fs : fsys := {[ out_dir := Dir ]} in
  let zf := Zip [(lit "x/.gb", rom_with_header Byte.x00);
                 (lit "y/.gb", rom_with_header Byte.x00)] in
  snd (extract_gb_gbc_from_zip (fun _ => []) zf out_dir fs)
  = Ok ([out_dir ++ [lit ".gb"]; out_dir ++ [lit ".gb_1"]], msg_success)
  /\ is_rom_name (lit ".gb_1") = false.
Proof. split; vm_compute; reflexivity. Qed.

(** ** Archive collector: two entries with one base name *)

Module ArchiveFacts.

Lemma path_name_snoc (p : Path) (n : pystr) : path_name (p ++ [n]) = n.
Proof. unfold path_name. apply last_last. Qed.

Lemma snoc_ne_self (p rel : Path) : rel <> [] -> p <> p ++ rel.
Proof.
  intros Hrel H. apply (f_equal length) in H. rewrite length_app in H.
  destruct rel; [contradiction | simpl in H; lia].
Qed.

Lemma choose_free (out_dir : Path) (filename : pystr) (fs : fsys) :
  path_exists fs (joinpath out_dir filename) = false ->
  choose_out_path out_dir filename fs = (fs, Ok (joinpath out_dir filename)).
Proof.
  intros H. unfold choose_out_path. destruct (splitext filename).
  simpl. now rewrite H.
Qed.

Lemma choose_first_candidate (out_dir : Path) (filename stem suffix : pystr)
    (fs : fsys) :
  splitext filename = (stem, suffix) ->
  path_exists fs (joinpath out_dir filename) = true ->
  path_exists fs (candidate out_dir stem suffix 1) = false ->
  choose_out_path out_dir filename fs
  = (fs, Ok (candidate out_dir stem suffix 1)).
Proof.
  intros Hs H0 H1. unfold choose_out_path. rewrite Hs.
  cbn [dedup_loop]. rewrite H0. fold (candidate out_dir stem suffix 1).
  destruct (size fs); cbn [dedup_loop]; now rewrite H1.
Qed.

Lemma bind_step {A B} (m : M A) (k : A -> M B) (fs fs1 : fsys) (a : A) :
  m fs = (fs1, Ok a) -> (m ≫= k) fs = k a fs1.
Proof. intros H. unfold mbind, M_bind, bind. now rewrite H. Qed.

Ltac path_ne :=
  let H := fresh in
  intros H;
  first [ apply app_inv_head in H; discriminate H
        | apply (f_equal length) in H; rewrite ?length_app in H;
          simpl in H; lia ].

Ltac fs_look :=
  repeat first
    [ rewrite lookup_insert_eq
    | rewrite lookup_insert_ne by path_ne
    | rewrite lookup_delete_eq
    | rewrite lookup_delete_ne by path_ne ].

Lemma joinpath_relative (p : Path) (s : pystr) (parts : list pystr) :
  startswith (lit "/") s = false -> parse_parts s = parts ->
  joinpath p s = p ++ parts.
Proof. intros H <-. unfold joinpath. now rewrite H. Qed.

End ArchiveFacts.

(** ** File system: lookups *)

Module FsFacts.

Lemma stat_lookup (fs : fsys) (p : Path) : p <> [] -> stat fs p = fs !! p.
Proof. now destruct p. Qed.

Lemma stat_under (fs : fsys) (out_dir rel : Path) :
  rel <> [] -> stat fs (out_dir ++ rel) = fs !! (out_dir ++ rel).
Proof. intros H. apply stat_lookup. now destruct out_dir, rel. Qed.

Lemma stat_is_dir (fs : fsys) (d : Path) :
  is_dir fs d = true -> stat fs d = Some Dir.
Proof.
  unfold is_dir. destruct d; [reflexivity|]. simpl.
  now destruct (fs !! _) as [[]|].
Qed.

Lemma parent_snoc (p : Path) (x : pystr) : parent (p ++ [x]) = p.
Proof. apply removelast_last. Qed.

Lemma take_snoc (ds : list pystr) (j : nat) :
  (S j <= length ds)%nat -> exists x, take (S j) ds = take j ds ++ [x].
Proof.
  revert j; induction ds as [|d ds IH]; intros j Hj; simpl in Hj; [lia|].
  destruct j; [now exists d|].
  destruct (IH j) as [x Hx]; [lia|]. exists x. simpl. now rewrite Hx.
Qed.

End FsFacts.


(** * Further properties *)

(** ** Display width: padding and truncation

    All widths here are those of the script's own [wcswidth], the one it
    defines when the [wcwidth] package is not installed. *)

Module PadFacts.
Import Width.

Lemma wcswidth_spaces (n : nat) : wcswidth (repeat (ch " ") n) = Z.of_nat n.
Proof.
  induction n as [|n IH]; [reflexivity|].
  cbn [repeat wcswidth]. rewrite IH.
  change (char_width (ch " ")) with 1. lia.
Qed.

Lemma pad_exact (text : pystr) (target_width : Z) :
  wcswidth text <= target_width ->
  wcswidth (pad_to_display_width text target_width) = target_width.
Proof.
  intros H. unfold pad_to_display_width.
  destruct (Z.leb_spec target_width (wcswidth text)); [lia|].
  rewrite WidthFacts.wcswidth_app, wcswidth_spaces. lia.
Qed.

Lemma tail_loop_suffix (rbase tail : pystr) (w : Z) :
  exists k, fst (tail_loop rbase tail w) = rev (take k rbase) ++ tail.
Proof.
  revert tail w; induction rbase as [|c r IH]; intros tail w; simpl.
  - now exists O.
  - destruct (4 <? _); simpl; [now exists O|].
    destruct (IH (c :: tail) (w + (char_width c + 0))) as [k Hk].
    exists (S k). rewrite Hk. simpl. now rewrite <- app_assoc.
Qed.

End PadFacts.

(** X1: for a text of ASCII characters only (code points up to 127), the
    fallback [wcswidth] is the number of characters. *)
Theorem wcswidth_ascii (s : pystr) :
  List.Forall (fun c => (c <= 127)%N) s ->
  Width.wcswidth s = Z.of_nat (length s).
Proof.
  induction 1 as [|c s Hc _ IH]; [reflexivity|].
  simpl Width.wcswidth. simpl length. rewrite IH. unfold Width.char_width.
  destruct (N.ltb_spec 127 c); lia.
Qed.

Lemma wcswidth_ascii_witness : Width.wcswidth (lit "game.gbc") = 8.
Proof.
  apply (wcswidth_ascii (lit "game.gbc")).
  repeat constructor; vm_compute; discriminate.
Defined.

(** X2: measured with the script's own [wcswidth] (no [wcwidth] package),
    [pad_to_display_width] only appends spaces; a text narrower than the
    target comes out exactly [target_width] cells wide, and a text that
    already fills the target comes out unchanged. *)
Theorem pad_to_display_width_spec (text : pystr) (target_width : Z) :
  (exists n,
     Width.pad_to_display_width text target_width
     = text ++ repeat (ch " ") n)
  /\ (Width.wcswidth text <= target_width ->
      Width.wcswidth (Width.pad_to_display_width text target_width)
      = target_width)
  /\ (target_width <= Width.wcswidth text ->
      Width.pad_to_display_width text target_width = text).
Proof.
  unfold Width.pad_to_display_width.
  destruct (Z.leb_spec target_width (Width.wcswidth text)) as [Hle|Hlt].
  - split; [exists O; now rewrite app_nil_r|]. split; [lia | reflexivity].
  - split; [eauto|]. split; [|lia]. intros _.
    rewrite WidthFacts.wcswidth_app, PadFacts.wcswidth_spaces. lia.
Qed.

Lemma pad_to_display_width_spec_witness :
  Width.wcswidth (Width.pad_to_display_width (lit ".gbc") 10) = 10
  /\ Width.pad_to_display_width (lit "0123456789ab") 10 = lit "0123456789ab".
Proof.
  split.
  - apply (proj1 (proj2 (pad_to_display_width_spec (lit ".gbc") 10))).
    vm_compute. discriminate.
  - apply (proj2 (proj2 (pad_to_display_width_spec (lit "0123456789ab") 10))).
    vm_compute. discriminate.
Defined.

(** X3: measured with the script's own [wcswidth] (no [wcwidth] package),
    [truncate_to_display_width] keeps the result within [max_width] whenever
    [max_width] leaves room for the ellipsis, a tail of 4 cells and the
    detected extension, that is from [7 + width(ext)] on. *)
Theorem truncate_fits_with_room (text : pystr) (max_width : Z) :
  7 + Width.wcswidth (snd (Width.split_ext text)) <= max_width ->
  Width.wcswidth (Width.truncate_to_display_width text max_width)
  <= max_width.
Proof. apply WidthFacts.truncate_width_ok. Qed.

Lemma truncate_fits_with_room_witness :
  Width.wcswidth
    (Width.truncate_to_display_width (lit "abcdefghijklmnopqrstuvwxyz.gb") 15)
  <= 15.
Proof.
  apply (truncate_fits_with_room (lit "abcdefghijklmnopqrstuvwxyz.gb") 15).
  vm_compute. discriminate.
Defined.

(** X4: measured with the script's own [wcswidth] (no [wcwidth] package), a
    text that does not fit is cut to a front part, the ellipsis, a tail and
    the detected extension, where the tail is an end piece of the base name
    at most 4 cells wide; a text that fits is returned as it is. *)
Theorem truncate_shape (text : pystr) (max_width : Z) :
  (Width.wcswidth text <= max_width ->
   Width.truncate_to_display_width text max_width = text)
  /\ (max_width < Width.wcswidth text ->
      exists front tail,
        Width.truncate_to_display_width text max_width
        = front ++ lit "..." ++ tail ++ snd (Width.split_ext text)
        /\ (exists before, fst (Width.split_ext text) = before ++ tail)
        /\ Width.wcswidth tail <= 4).
Proof.
  unfold Width.truncate_to_display_width.
  destruct (Z.leb_spec (Width.wcswidth text) max_width) as [Hle|Hlt].
  - split; [reflexivity | lia].
  - split; [lia|]. intros _.
    destruct (Width.split_ext text) as [base ext]; cbn [fst snd].
    destruct (max_width <=? _).
    + exists [], []. split; [reflexivity|]. split; [|simpl; lia].
      exists base. now rewrite app_nil_r.
    + destruct (WidthFacts.tail_loop_width (rev base) [] 0 eq_refl)
        as [Ht Hw]; [lia|].
      destruct (PadFacts.tail_loop_suffix (rev base) [] 0) as [k Hk].
      destruct (Width.tail_loop (rev base) [] 0) as [tail tw].
      cbn [fst snd] in *. subst tw. eexists _, tail.
      split; [reflexivity|]. split; [|assumption].
      exists (rev (drop k (rev base))). rewrite Hk, app_nil_r.
      rewrite <- rev_app_distr, take_drop. symmetry. apply rev_involutive.
Qed.

Lemma truncate_shape_witness :
  exists front tail,
    Width.truncate_to_display_width (lit "abcdefghijklmnopqrstuvwxyz.gb") 15
    = front ++ lit "..." ++ tail ++ lit ".gb"
    /\ (exists before, lit "abcdefghijklmnopqrstuvwxyz" = before ++ tail)
    /\ Width.wcswidth tail <= 4.
Proof.
  apply (proj2 (truncate_shape (lit "abcdefghijklmnopqrstuvwxyz.gb") 15)).
  vm_compute. reflexivity.
Defined.

(** X5: measured with the script's own [wcswidth] (no [wcwidth] package),
    the name cell of a table row, the name truncated and then padded to the
    48 cells of the column, is exactly 48 cells wide for every name. *)
Theorem name_cell_width (name : pystr) :
  Width.wcswidth
    (Width.pad_to_display_width
       (Width.truncate_to_display_width name Report.NAME_WIDTH)
       Report.NAME_WIDTH)
  = Report.NAME_WIDTH.
Proof.
  apply PadFacts.pad_exact.
  apply WidthFacts.truncate_width_name_column.
Qed.

(** X16: with the script's own [wcswidth] (no [wcwidth] package),
    truncating twice is truncating once, whenever [max_width] leaves room
    for the ellipsis, a tail of 4 cells and the extension of the text. *)
Theorem truncate_idempotent (text : pystr) (max_width : Z) :
  7 + Width.wcswidth (snd (Width.split_ext text)) <= max_width ->
  Width.truncate_to_display_width
    (Width.truncate_to_display_width text max_width) max_width
  = Width.truncate_to_display_width text max_width.
Proof.
  intros H. apply WidthFacts.truncate_width_ok in H.
  unfold Width.truncate_to_display_width at 1.
  apply Z.leb_le in H. now rewrite H.
Qed.

Lemma truncate_idempotent_witness :
  Width.truncate_to_display_width
    (Width.truncate_to_display_width (lit "abcdefghijklmnopqrstuvwxyz.gb") 15)
    15
  = Width.truncate_to_display_width (lit "abcdefghijklmnopqrstuvwxyz.gb") 15.
Proof.
  apply (truncate_idempotent (lit "abcdefghijklmnopqrstuvwxyz.gb") 15).
  vm_compute. discriminate.
Defined.

(** ** Report renderer *)

Module ReportFacts.
Import Report.

Lemma str_ltb_irrefl (a : pystr) : str_ltb a a = false.
Proof.
  induction a as [|x a IH]; [reflexivity|]. simpl.
  now rewrite N.ltb_irrefl, N.eqb_refl, IH.
Qed.

Lemma str_ltb_cons (x y : N) (a b : pystr) :
  str_ltb (x :: a) (y :: b) = true
  <-> (x < y)%N \/ (x = y /\ str_ltb a b = true).
Proof.
  simpl. rewrite orb_true_iff, andb_true_iff, N.ltb_lt, N.eqb_eq. tauto.
Qed.

Lemma str_ltb_trans (a b c : pystr) :
  str_ltb a b = true -> str_ltb b c = true -> str_ltb a c = true.
Proof.
  revert b c; induction a as [|x a IH]; intros [|y b] [|z c];
    try discriminate; try reflexivity.
  rewrite !str_ltb_cons. intros [H1|[-> H1]] [H2|[-> H2]].
  - left. lia.
  - now left.
  - now left.
  - right. split; [reflexivity|]. now apply (IH b).
Qed.

Lemma str_ltb_total (a b : pystr) :
  str_ltb a b = true \/ a = b \/ str_ltb b a = true.
Proof.
  revert b; induction a as [|x a IH]; intros [|y b]; simpl; auto.
  destruct (N.lt_trichotomy x y) as [H|[->|H]].
  - left. apply N.ltb_lt in H. now rewrite H.
  - rewrite N.ltb_irrefl, N.eqb_refl. simpl.
    destruct (IH b) as [H|[->|H]]; auto.
  - right. right. apply N.ltb_lt in H. now rewrite H.
Qed.

Section Sorting.
Variable str_lower : pystr -> pystr.

Lemma key_le_trans (a b c : verdict) :
  key_le str_lower a b -> key_le str_lower b c -> key_le str_lower a c.
Proof.
  unfold key_le. intros Hab Hbc.
  destruct (str_ltb (sort_key str_lower c) (sort_key str_lower a)) eqn:Hca;
    [|reflexivity].
  destruct (str_ltb_total (sort_key str_lower b) (sort_key str_lower c))
    as [H|[H|H]].
  - rewrite (str_ltb_trans _ _ _ H Hca) in Hab. discriminate.
  - rewrite H, Hca in Hab. discriminate.
  - rewrite H in Hbc. discriminate.
Qed.

Lemma key_le_total (a b : verdict) :
  key_le str_lower a b \/ key_le str_lower b a.
Proof.
  unfold key_le.
  destruct (str_ltb (sort_key str_lower b) (sort_key str_lower a)) eqn:H;
    [|now left].
  right.
  destruct (str_ltb (sort_key str_lower a) (sort_key str_lower b)) eqn:H';
    [|reflexivity].
  pose proof (str_ltb_trans _ _ _ H H') as Hirr.
  now rewrite str_ltb_irrefl in Hirr.
Qed.

Lemma insert_by_key_perm (x : verdict) (l : list verdict) :
  Permutation (insert_by_key str_lower x l) (x :: l).
Proof.
  induction l as [|y r IH]; simpl; [reflexivity|].
  destruct (str_ltb _ _); [reflexivity|].
  rewrite IH. apply perm_swap.
Qed.

Lemma sorted_perm (l : list verdict) : Permutation (sorted str_lower l) l.
Proof.
  unfold sorted.
  assert (forall acc,
            Permutation (fold_left (fun acc x => insert_by_key str_lower x acc)
                           l acc) (acc ++ l)) as H.
  { induction l as [|x l IH]; intros acc; simpl.
    - now rewrite app_nil_r.
    - rewrite IH, insert_by_key_perm. simpl. apply Permutation_middle. }
  apply (H []).
Qed.

Lemma insert_by_key_sorted (x : verdict) (l : list verdict) :
  StronglySorted (key_le str_lower) l ->
  StronglySorted (key_le str_lower) (insert_by_key str_lower x l).
Proof.
  induction 1 as [|y r Hr IH Hy]; simpl.
  - repeat constructor.
  - destruct (str_ltb _ _) eqn:E.
    + assert (key_le str_lower x y) as Hxy.
      { destruct (key_le_total x y) as [|H]; [assumption|].
        unfold key_le in H. rewrite E in H. discriminate. }
      constructor; [now constructor|].
      constructor; [assumption|].
      eapply List.Forall_impl; [|exact Hy].
      intros z Hz. now apply (key_le_trans x y z).
    + constructor; [assumption|].
      rewrite (insert_by_key_perm x r). constructor; assumption.
Qed.

Lemma sorted_sorted (l : list verdict) :
  StronglySorted (key_le str_lower) (sorted str_lower l).
Proof.
  unfold sorted.
  assert (forall acc,
            StronglySorted (key_le str_lower) acc ->
            StronglySorted (key_le str_lower)
              (fold_left (fun acc x => insert_by_key str_lower x acc) l acc))
    as H.
  { induction l as [|x l IH]; intros acc Hacc; simpl; [assumption|].
    apply IH. now apply insert_by_key_sorted. }
  apply H. constructor.
Qed.

Lemma sorted_unique (l1 l2 : list verdict) :
  List.NoDup (map (sort_key str_lower) l1) ->
  Permutation l1 l2 ->
  sorted str_lower l1 = sorted str_lower l2.
Proof.
  intros Hnd Hp.
  apply (StronglySorted_unique_strong (key_le str_lower));
    [|apply sorted_sorted | apply sorted_sorted |
     now rewrite !sorted_perm].
  intros x1 x2 H1 H2 Hle1 Hle2.
  rewrite sorted_perm in H1. rewrite sorted_perm, <- Hp in H2.
  assert (sort_key str_lower x1 = sort_key str_lower x2) as Hk.
  { unfold key_le in *.
    destruct (str_ltb_total (sort_key str_lower x1) (sort_key str_lower x2))
      as [H|[H|H]]; [congruence | assumption | congruence]. }
  clear Hle1 Hle2 Hp l2. apply list_elem_of_In in H1, H2.
  induction l1 as [|y l IH]; [destruct H1|].
  simpl in Hnd. inversion Hnd as [|? ? Hnotin Hnd']; subst.
  destruct H1 as [->|H1], H2 as [->|H2]; try reflexivity.
  - exfalso. apply Hnotin. rewrite Hk. now apply in_map.
  - exfalso. apply Hnotin. rewrite <- Hk. now apply in_map.
  - now apply IH.
Qed.

End Sorting.

Lemma count_status_perm (symbol : pystr) (l1 l2 : list verdict) :
  Permutation l1 l2 -> count_status symbol l1 = count_status symbol l2.
Proof. intros H. unfold count_status. now rewrite H. Qed.

(** The three status symbols are the only ones [check_rom] gives. *)
Lemma check_rom_status (fs : fsys) (p : Path) (d : pystr) :
  fst (fst (Classifier.check_rom fs p d)) = d
  /\ (snd (fst (Classifier.check_rom fs p d)) = Classifier.OK
      \/ snd (fst (Classifier.check_rom fs p d)) = Classifier.MISMATCH
      \/ snd (fst (Classifier.check_rom fs p d)) = Classifier.UNKNOWN).
Proof.
  unfold Classifier.check_rom.
  destruct (Classifier.detect_gb_type fs p); simpl; [|auto].
  destruct (pystr_eqb _ _); auto.
Qed.

Lemma count_partition (results : list verdict) :
  List.Forall (fun v => snd (fst v) = Classifier.OK
                        \/ snd (fst v) = Classifier.MISMATCH
                        \/ snd (fst v) = Classifier.UNKNOWN) results ->
  count_status Classifier.OK results + count_status Classifier.MISMATCH results
  + count_status Classifier.UNKNOWN results
  = Z.of_nat (length results).
Proof.
  unfold count_status.
  induction 1 as [|v l Hv _ IH]; [reflexivity|].
  rewrite !filter_cons. simpl length.
  destruct Hv as [Hv|[Hv|Hv]]; rewrite Hv;
    repeat case_decide; try discriminate; try congruence;
    simpl length; lia.
Qed.

End ReportFacts.

(** X6: for a non-empty list of verdicts [print_table] prints three heading
    lines, one row for each verdict and two closing lines; the rows render
    the verdicts exactly once each, ordered by lower-cased display name. *)
Theorem print_table_rows (str_lower : pystr -> pystr)
    (results : list Report.verdict) :
  results <> [] ->
  exists heading rows closing,
    Report.print_table str_lower results
    = heading ++ map Report.row rows ++ closing
    /\ length heading = 3%nat /\ length closing = 2%nat
    /\ Permutation rows results
    /\ StronglySorted (Report.key_le str_lower) rows.
Proof.
  intros Hne. unfold Report.print_table.
  destruct results as [|v results]; [contradiction|]. cbn [is_empty].
  eexists [_; _; _], (Report.sorted str_lower (v :: results)), [_; _].
  split; [reflexivity|]. split; [reflexivity|]. split; [reflexivity|].
  split; [apply ReportFacts.sorted_perm | apply ReportFacts.sorted_sorted].
Qed.

Lemma print_table_rows_witness :
  exists heading rows closing,
    Report.print_table lower
      [(lit "b.gb", Classifier.OK, []);
       (lit "A.gb", Classifier.UNKNOWN, lit "?")]
    = heading ++ map Report.row rows ++ closing
    /\ length heading = 3%nat /\ length closing = 2%nat
    /\ Permutation rows [(lit "b.gb", Classifier.OK, []);
                         (lit "A.gb", Classifier.UNKNOWN, lit "?")]
    /\ StronglySorted (Report.key_le lower) rows.
Proof.
  apply (print_table_rows lower
           [(lit "b.gb", Classifier.OK, []);
            (lit "A.gb", Classifier.UNKNOWN, lit "?")]).
  discriminate.
Defined.

(** X7: after any run of the scheduler over a non-empty list of ROMs, the
    last line [print_table] prints is the statistics line with the number of
    ROMs as total and, as the unknown count obtained by subtraction, the
    number of verdicts with the UNKNOWN symbol. *)
Theorem print_table_statistics (str_lower : pystr -> pystr) (fs : fsys)
    (all_roms : list (Path * pystr)) (results : list Report.verdict) :
  all_roms <> [] ->
  Scheduler.as_completed (Scheduler.submit_all fs all_roms) results ->
  List.last (Report.print_table str_lower results) []
  = Report.txt_stats_total
    ++ Report.str_of_Z (Z.of_nat (length all_roms))
    ++ Report.txt_stats_ok
    ++ Report.str_of_Z (Report.count_status Classifier.OK results)
    ++ Report.txt_stats_bad
    ++ Report.str_of_Z (Report.count_status Classifier.MISMATCH results)
    ++ Report.txt_stats_unk
    ++ Report.str_of_Z (Report.count_status Classifier.UNKNOWN results).
Proof.
  intros Hne Hrun.
  assert (Permutation results (Scheduler.check_all fs all_roms)) as HP.
  { etransitivity; [apply SchedulerFacts.as_completed_perm, Hrun|].
    apply SchedulerFacts.submit_all_list. }
  assert (length results = length all_roms) as Hlen.
  { rewrite (Permutation_length HP). apply length_map. }
  assert (List.Forall
            (fun v => snd (fst v) = Classifier.OK
                      \/ snd (fst v) = Classifier.MISMATCH
                      \/ snd (fst v) = Classifier.UNKNOWN) results) as Hst.
  { apply List.Forall_forall. intros v Hv.
    apply (Permutation_in _ HP), in_map_iff in Hv as ([p d] & <- & _).
    apply ReportFacts.check_rom_status. }
  pose proof (ReportFacts.count_partition results Hst) as Hsum.
  unfold Report.print_table.
  destruct results as [|v results].
  { destruct all_roms; [contradiction | discriminate Hlen]. }
  cbn [is_empty].
  assert (forall (h m : list pystr) a b, List.last (h ++ m ++ [a; b]) [] = b)
    as Hlast.
  { intros h m a b. change [a; b] with ([a] ++ [b]).
    rewrite !app_assoc. apply last_last. }
  rewrite Hlast.
  rewrite Hlen in *.
  replace (Z.of_nat (length all_roms)
           - Report.count_status Classifier.OK (v :: results)
           - Report.count_status Classifier.MISMATCH (v :: results))
    with (Report.count_status Classifier.UNKNOWN (v :: results)) by lia.
  reflexivity.
Qed.

Lemma print_table_statistics_witness :
  let fs : fsys :=
    {[ [lit "a.gb"] := File (rom_with_header Byte.x00);
       [lit "b.gb"] := File (rom_with_header Byte.x55) ]} in
  let results :=
    [(lit "b.gb", Classifier.UNKNOWN, lit "?");
     (lit "a.gb", Classifier.OK, [])] in
  List.last (Report.print_table lower results) []
  = Report.txt_stats_total ++ lit "2" ++ Report.txt_stats_ok ++ lit "1"
    ++ Report.txt_stats_bad ++ lit "0" ++ Report.txt_stats_unk ++ lit "1".
Proof.
  intros fs results.
  apply (print_table_statistics lower fs
           [([lit "a.gb"], lit "a.gb"); ([lit "b.gb"], lit "b.gb")] results).
  - discriminate.
  - apply (Scheduler.completed_next _ 1%nat); [vm_compute; reflexivity|].
    apply (Scheduler.completed_next _ 0%nat); [vm_compute; reflexivity|].
    vm_compute. apply Scheduler.completed_all.
Defined.

(** X8: when no two collected ROMs have the same lower-cased display name,
    the table printed does not depend on the order in which the checks
    complete: any two runs of the scheduler print the same lines. *)
Theorem report_independent_of_completion_order (str_lower : pystr -> pystr)
    (fs : fsys) (all_roms : list (Path * pystr))
    (results1 results2 : list Report.verdict) :
  List.NoDup (map (fun r => str_lower (snd r)) all_roms) ->
  Scheduler.as_completed (Scheduler.submit_all fs all_roms) results1 ->
  Scheduler.as_completed (Scheduler.submit_all fs all_roms) results2 ->
  Report.print_table str_lower results1 = Report.print_table str_lower results2.
Proof.
  intros Hnd H1 H2.
  assert (forall results,
            Scheduler.as_completed (Scheduler.submit_all fs all_roms) results ->
            Permutation results (Scheduler.check_all fs all_roms)) as HP.
  { intros results H.
    etransitivity; [apply SchedulerFacts.as_completed_perm, H|].
    apply SchedulerFacts.submit_all_list. }
  pose proof (HP _ H1) as P1. pose proof (HP _ H2) as P2.
  assert (Permutation results1 results2) as P12.
  { now rewrite P1, P2. }
  assert (List.NoDup (map (Report.sort_key str_lower) results1)) as Hnd1.
  { eapply Permutation_NoDup; [symmetry; apply Permutation_map, P1|].
    unfold Scheduler.check_all. rewrite map_map.
    erewrite map_ext; [exact Hnd|].
    intros [p d]. unfold Report.sort_key. cbn [fst snd].
    now rewrite (proj1 (ReportFacts.check_rom_status fs p d)). }
  unfold Report.print_table.
  rewrite (ReportFacts.sorted_unique str_lower _ _ Hnd1 P12).
  rewrite (ReportFacts.count_status_perm Classifier.OK _ _ P12).
  rewrite (ReportFacts.count_status_perm Classifier.MISMATCH _ _ P12).
  rewrite (Permutation_length P12).
  assert (is_empty results1 = is_empty results2) as ->; [|reflexivity].
  pose proof (Permutation_length P12).
  destruct results1, results2; try reflexivity; discriminate.
Qed.

Lemma report_independent_of_completion_order_witness :
  Report.print_table lower
    [(lit "b.gb", Classifier.UNKNOWN, lit "?"); (lit "a.gb", Classifier.OK, [])]
  = Report.print_table lower
      [(lit "a.gb", Classifier.OK, []); (lit "b.gb", Classifier.UNKNOWN, lit "?")].
Proof.
  apply (report_independent_of_completion_order lower
           {[ [lit "a.gb"] := File (rom_with_header Byte.x00);
              [lit "b.gb"] := File (rom_with_header Byte.x55) ]}
           [([lit "a.gb"], lit "a.gb"); ([lit "b.gb"], lit "b.gb")]).
  - repeat constructor; vm_compute; intuition discriminate.
  - apply (Scheduler.completed_next _ 1%nat); [vm_compute; reflexivity|].
    apply (Scheduler.completed_next _ 0%nat); [vm_compute; reflexivity|].
    vm_compute. apply Scheduler.completed_all.
  - apply (Scheduler.completed_next _ 0%nat); [vm_compute; reflexivity|].
    apply (Scheduler.completed_next _ 1%nat); [vm_compute; reflexivity|].
    vm_compute. apply Scheduler.completed_all.
Defined.

(** ** 7z extraction and the archive collector *)

Module SevenZipFacts.

Lemma iterdir_spec (fs : fsys) (d : Path) (listing : list Path) :
  iterdir fs d = inl listing ->
  List.NoDup listing
  /\ forall p, In p listing <-> p <> [] /\ parent p = d /\ path_exists fs p = true.
Proof.
  unfold iterdir. destruct (stat fs d) as [[]|]; try discriminate.
  intros [= <-].
  split.
  - apply NoDup_ListNoDup, NoDup_filter, NoDup_fst_map_to_list.
  - intros p. rewrite <- list_elem_of_In, list_elem_of_filter.
    rewrite list_elem_of_fmap. unfold path_exists. split.
    + intros [[H1 H2] ([q n] & -> & Hq)]. simpl in *.
      apply elem_of_map_to_list in Hq. now rewrite Hq.
    + intros (H1 & H2 & H3). split; [auto|].
      destruct (fs !! p) as [n|] eqn:E; [|discriminate].
      exists (p, n). split; [reflexivity|]. now apply elem_of_map_to_list.
Qed.

(** Whatever the outcome, the paths the extractor returns are files of the
    output directory with a ROM suffix. *)
Lemma extract_7za_files (exn_str : exn -> pystr) (seven_zip : Path)
    (run_7za : Path -> Path -> fsys -> fsys * run_result)
    (archive_path out_dir : Path) (fs fs' : fsys) (roms : list Path)
    (msg : pystr) :
  extract_gb_gbc_with_7za exn_str seven_zip run_7za archive_path out_dir fs
  = (fs', (roms, msg)) ->
  List.Forall (fun f => is_file fs' f = true /\ parent f = out_dir
                        /\ is_rom_suffix (path_suffix f) = true) roms.
Proof.
  unfold extract_gb_gbc_with_7za.
  destruct (path_exists fs seven_zip); simpl; [|intros [= <- <- <-]; constructor].
  destruct (run_7za archive_path out_dir fs) as [fs1 [rc out err| |e]];
    try (intros [= <- <- <-]; constructor).
  destruct (_ || _); [intros [= <- <- <-]; constructor|].
  destruct (negb _); [intros [= <- <- <-]; constructor|].
  destruct (iterdir fs1 out_dir) as [listing|e] eqn:E;
    [|intros [= <- <- <-]; constructor].
  intros [= <- <- <-]. apply iterdir_spec in E as [_ E].
  apply List.Forall_forall. intros f Hf.
  apply list_elem_of_In, list_elem_of_filter in Hf as [Hf Hin].
  apply list_elem_of_In, E in Hin as (_ & Hp & _).
  apply Is_true_true, andb_true_iff in Hf. tauto.
Qed.

End SevenZipFacts.

(** X9: when the extraction utility ends with exit code 0 and without the
    phrase [No files to process], the extractor returns exactly the files
    that are then directly in the output directory and have the suffix
    [.gb] or [.gbc] in any case, each once; the message is the success
    message if there is such a file and the nothing-found message if there
    is none. *)
Theorem extract_7za_success (exn_str : exn -> pystr) (seven_zip : Path)
    (run_7za : Path -> Path -> fsys -> fsys * run_result)
    (archive_path out_dir : Path) (fs fs' : fsys) (out err : pystr) :
  path_exists fs seven_zip = true ->
  run_7za archive_path out_dir fs = (fs', Completed 0 out err) ->
  contains no_files_to_process err = false ->
  contains no_files_to_process out = false ->
  is_dir fs' out_dir = true ->
  exists roms,
    extract_gb_gbc_with_7za exn_str seven_zip run_7za archive_path out_dir fs
    = (fs', (roms, if is_empty roms then msg_none_found else msg_success))
    /\ List.NoDup roms
    /\ forall f,
         In f roms
         <-> f <> [] /\ parent f = out_dir /\ is_file fs' f = true
             /\ is_rom_suffix (path_suffix f) = true.
Proof.
  intros Htool Hrun Herr Hout Hdir. unfold extract_gb_gbc_with_7za.
  rewrite Htool, Hrun, Herr, Hout. cbn [negb orb Z.eqb].
  destruct (iterdir fs' out_dir) as [listing|e] eqn:E.
  2: { unfold iterdir in E. rewrite (FsFacts.stat_is_dir _ _ Hdir) in E.
       discriminate. }
  apply SevenZipFacts.iterdir_spec in E as [Hnd E].
  eexists. split; [reflexivity|]. split.
  - apply NoDup_ListNoDup, NoDup_filter, NoDup_ListNoDup, Hnd.
  - intros f. rewrite <- list_elem_of_In, list_elem_of_filter.
    rewrite list_elem_of_In, E, Is_true_true, andb_true_iff.
    unfold is_file, path_exists. destruct (fs' !! f) as [[]|]; intuition.
Qed.

Lemma extract_7za_success_witness :
  let fs : fsys :=
    {[ [lit "7za.exe"] := File []; [lit "out"] := Dir ]} in
  let fs' : fsys :=
    <[ [lit "out"; lit "a.GB"] := File [] ]>
      (<[ [lit "out"; lit "readme.txt"] := File [] ]> fs) in
  exists roms,
    extract_gb_gbc_with_7za (fun _ => []) [lit "7za.exe"]
      (fun _ _ _ => (fs', Completed 0 (lit "Everything is Ok") []))
      [lit "a.7z"] [lit "out"] fs
    = (fs', (roms, if is_empty roms then msg_none_found else msg_success))
    /\ List.NoDup roms
    /\ forall f,
         In f roms
         <-> f <> [] /\ parent f = [lit "out"] /\ is_file fs' f = true
             /\ is_rom_suffix (path_suffix f) = true.
Proof.
  intros fs fs'.
  apply (extract_7za_success (fun _ => []) [lit "7za.exe"]
           (fun _ _ _ => (fs', Completed 0 (lit "Everything is Ok") []))
           [lit "a.7z"] [lit "out"] fs fs' (lit "Everything is Ok") []);
    [vm_compute; reflexivity | reflexivity | vm_compute; reflexivity ..].
Defined.

(** X11: for a 7z archive every ROM the archive collector returns is, in the
    file system the collector leaves behind, a file directly in the
    archive's sub-directory with the suffix [.gb] or [.gbc] in any case. *)
Theorem collect_7z_roms_exist (exn_str : exn -> pystr)
    (hash : pystr -> Z) (open_zip : Path -> zipfile) (seven_zip : Path)
    (run_7za : Path -> Path -> fsys -> fsys * run_result)
    (archive_path base_tmpdir : Path) (fs fs' : fsys)
    (roms : list (Path * pystr)) :
  lower (path_suffix archive_path) = lit ".7z" ->
  collect_from_archive exn_str hash open_zip seven_zip run_7za
    archive_path base_tmpdir fs = (fs', Ok roms) ->
  List.Forall
    (fun r => is_file fs' (fst r) = true
              /\ parent (fst r)
                 = joinpath base_tmpdir (subdir_name hash archive_path)
              /\ is_rom_suffix (path_suffix (fst r)) = true) roms.
Proof.
  intros Hsuf H. unfold collect_from_archive in H.
  apply ExtractFacts.bind_ok in H as ([] & fs1 & _ & H).
  rewrite Hsuf in H.
  change (pystr_eqb (lit ".7z") (lit ".zip")) with false in H.
  change (pystr_eqb (lit ".7z") (lit ".7z")) with true in H.
  cbv beta iota in H.
  destruct (extract_gb_gbc_with_7za exn_str seven_zip run_7za archive_path
              (joinpath base_tmpdir (subdir_name hash archive_path)) fs1)
    as [fs2 [files msg]] eqn:E.
  apply SevenZipFacts.extract_7za_files in E.
  destruct (is_empty files); injection H as <- <-; [constructor|].
  unfold with_names. apply List.Forall_forall. intros r Hr.
  apply in_map_iff in Hr as (f & <- & Hf).
  rewrite List.Forall_forall in E. exact (E f Hf).
Qed.

Lemma collect_7z_roms_exist_witness :
  let fs : fsys :=
    {[ [lit "7za.exe"] := File []; [lit "tmp"] := Dir ]} in
  let subdir := [lit "tmp"; lit "_pack_0007"] in
  let unpack (_ out_dir : Path) (fs : fsys) :=
    (<[ out_dir ++ [lit "a.GB"] := File (rom_with_header Byte.x00) ]> fs,
     Completed 0 (lit "Everything is Ok") []) in
  let run :=
    collect_from_archive (fun _ => []) (fun _ => 7) (fun _ => BadZip)
      [lit "7za.exe"] unpack [lit "in"; lit "pack.7z"] [lit "tmp"] fs in
  List.Forall
    (fun r => is_file (fst run) (fst r) = true /\ parent (fst r) = subdir
              /\ is_rom_suffix (path_suffix (fst r)) = true)
    [(subdir ++ [lit "a.GB"], lit "a.GB")].
Proof.
  intros fs subdir unpack run.
  apply (collect_7z_roms_exist (fun _ => []) (fun _ => 7) (fun _ => BadZip)
           [lit "7za.exe"] unpack [lit "in"; lit "pack.7z"] [lit "tmp"]
           fs (fst run) [(subdir ++ [lit "a.GB"], lit "a.GB")]).
  - vm_compute. reflexivity.
  - apply injective_projections; [reflexivity | vm_compute; reflexivity].
Defined.

(** ** Zip extraction: what is returned and what is touched *)

Module ZipExtra.

Lemma rom_name_last (name : pystr) :
  is_rom_name name = true ->
  exists pre c, name = pre ++ [c] /\ c <> ch "/" /\ c <> ch ".".
Proof.
  unfold is_rom_name, endswith, lower. rewrite <- map_rev.
  intros H.
  assert (exists c r, rev name = c :: r
                      /\ (lower_char c = 98%N \/ lower_char c = 99%N))
    as (c & r & Hrev & Hc).
  { destruct (rev name) as [|c r]; [discriminate H|]. exists c, r.
    split; [reflexivity|].
    change (rev (lit ".gb")) with [98; 103; 46]%N in H.
    change (rev (lit ".gbc")) with [99; 98; 103; 46]%N in H.
    cbn [startswith map] in H.
    apply orb_true_iff in H as [H|H];
      apply andb_true_iff in H as [H _]; apply N.eqb_eq in H; auto. }
  exists (rev r), c. split.
  - rewrite <- (rev_involutive name), Hrev. reflexivity.
  - split; intros ->; destruct Hc as [Hc|Hc]; discriminate Hc.
Qed.

Lemma rfind_snoc (x c : N) (pre : pystr) :
  c <> x -> rfind x (pre ++ [c]) = rfind x pre.
Proof.
  intros Hc. induction pre as [|y pre IH]; simpl.
  - destruct (N.eqb_spec c x); [contradiction | reflexivity].
  - now rewrite IH.
Qed.

Lemma basename_snoc (pre : pystr) (c : N) :
  c <> ch "/" -> basename (pre ++ [c]) = basename pre ++ [c].
Proof.
  intros Hc. unfold basename. rewrite rfind_snoc by assumption.
  destruct (rfind (ch "/") pre) as [i|] eqn:E; [|reflexivity].
  apply rfind_lt in E. rewrite drop_app_le by lia. reflexivity.
Qed.

(** The base name of a ROM entry is a plain file name. *)
Lemma rom_basename (out_dir : Path) (name : pystr) :
  is_rom_name name = true ->
  joinpath out_dir (basename name) = out_dir ++ [basename name].
Proof.
  intros (pre & c & -> & Hsep & Hdot)%rom_name_last.
  apply FolderFacts.joinpath_name.
  - rewrite basename_snoc by assumption. now destruct (basename pre).
  - apply ZipFacts.basename_no_sep.
  - rewrite basename_snoc by assumption. intros H.
    destruct (basename pre) as [|? [|]]; simpl in H; try discriminate H.
    injection H as H. contradiction.
Qed.

Lemma extract_entry_target_of (entries : list (pystr * list Byte.byte))
    (out_dir : Path) (name : pystr) (fs fs' : fsys) (q : Path) :
  is_rom_name name = true ->
  extract_entry entries out_dir name fs = (fs', Ok q) ->
  target_of out_dir name q.
Proof.
  intros Hrom H.
  apply ExtractFacts.extract_entry_target in H as [_ [-> | (_ & n & Hn & -> & _)]].
  - exists (basename name). split; [now apply rom_basename | now left].
  - eexists. split; [reflexivity|]. right. now exists n.
Qed.

Lemma extract_entries_targets (entries : list (pystr * list Byte.byte))
    (out_dir : Path) (names : list pystr) :
  forall acc fs fs' roms,
    List.Forall (fun n => is_rom_name n = true) names ->
    extract_entries entries out_dir names acc fs = (fs', Ok roms) ->
    exists new, roms = acc ++ new /\ List.Forall2 (target_of out_dir) names new.
Proof.
  induction names as [|name rest IH]; intros acc fs fs' roms Hrom H.
  - injection H as _ <-. exists []. split; [now rewrite app_nil_r | constructor].
  - cbn [extract_entries] in H.
    apply ExtractFacts.bind_ok in H as (q & fs1 & Hq & H).
    inversion Hrom as [|? ? Hname Hrest]; subst.
    apply IH in H as (new & -> & Hnew); [|assumption].
    exists (q :: new). split; [now rewrite <- app_assoc|].
    constructor; [|assumption].
    now apply (extract_entry_target_of entries out_dir name fs fs1).
Qed.

Lemma gb_files_rom_names (names : list pystr) :
  List.Forall (fun n => is_rom_name n = true) (gb_files names).
Proof.
  apply List.Forall_forall. intros n Hn.
  apply list_elem_of_In, list_elem_of_filter in Hn as [Hn _].
  now apply Is_true_true.
Qed.

End ZipExtra.

(** X12: the zip extractor always comes to an end with a list and a
    message: its renaming loop terminates and every exception is caught.
    Either the list is empty and the message is not the success message, or
    the message is the success message and the list holds one path for each
    entry whose name ends in [.gb] or [.gbc], in the order of the archive.
    Each of these paths lies directly in the output directory and is named
    by the base name of its entry or by that name with [_N], [N >= 1],
    before the extension.  This is about the paths returned: a later entry
    can move the file of an earlier one away, as the archive with the
    entries [sub/a.gb] and [a.gb] shows above, so a returned path need not
    be a file at the end. *)
Theorem zip_extraction_outcome (exn_str : exn -> pystr) (zf : zipfile)
    (out_dir : Path) (fs : fsys) :
  exists fs' roms msg,
    extract_gb_gbc_from_zip exn_str zf out_dir fs = (fs', Ok (roms, msg))
    /\ (roms = [] /\ msg <> msg_success
        \/ msg = msg_success
           /\ exists entries,
                zf = Zip entries
                /\ gb_files (namelist entries) <> []
                /\ List.Forall2 (target_of out_dir)
                     (gb_files (namelist entries)) roms).
Proof.
  unfold extract_gb_gbc_from_zip. destruct zf as [|entries].
  { eexists _, _, _. split; [reflexivity|]. left.
    split; [reflexivity | discriminate]. }
  destruct (gb_files (namelist entries)) as [|n0 names0] eqn:Hgb.
  { eexists _, _, _. split; [reflexivity|]. left.
    split; [reflexivity | discriminate]. }
  cbn [is_empty]. rewrite <- Hgb.
  pose proof (ExtractFacts.extract_entries_returns entries out_dir
                (gb_files (namelist entries)) [] fs) as Hret.
  destruct (extract_entries entries out_dir (gb_files (namelist entries)) [] fs)
    as [fs' [roms|e|]] eqn:E.
  - eexists _, _, _. split; [reflexivity|]. right.
    split; [reflexivity|]. exists entries. split; [reflexivity|].
    split; [rewrite Hgb; discriminate|].
    apply ZipExtra.extract_entries_targets in E as (new & -> & Hnew);
      [exact Hnew | apply ZipExtra.gb_files_rom_names].
  - eexists _, _, _. split; [reflexivity|]. left.
    split; [reflexivity | discriminate].
  - now contradiction Hret.
Qed.

(** X13: the path collected for an entry was free when it was chosen; it is
    the base name of the entry in the output directory if that was free, and
    otherwise the first free [stem_N suffix], [N] counted from 1. *)
Theorem zip_entry_target_first_free (entries : list (pystr * list Byte.byte))
    (out_dir : Path) (name : pystr) (fs fs' : fsys) (q : Path) :
  extract_entry entries out_dir name fs = (fs', Ok q) ->
  let filename := basename name in
  path_exists fs q = false
  /\ (q = joinpath out_dir filename
      \/ path_exists fs (joinpath out_dir filename) = true
         /\ exists n,
              (1 <= n)%nat
              /\ q = out_dir ++ [fst (splitext filename) ++ lit "_"
                                 ++ str_of_nat n ++ snd (splitext filename)]
              /\ forall k, (1 <= k < n)%nat ->
                   path_exists fs
                     (out_dir ++ [fst (splitext filename) ++ lit "_"
                                  ++ str_of_nat k ++ snd (splitext filename)])
                   = true).
Proof. apply ExtractFacts.extract_entry_target. Qed.

Lemma zip_entry_target_first_free_witness :
  let fs : fsys :=
    {[ [lit "out"] := Dir; [lit "out"; lit "a.gb"] := File [];
       [lit "out"; lit "a_1.gb"] := File [] ]} in
  path_exists fs [lit "out"; lit "a_2.gb"] = false
  /\ ([lit "out"; lit "a_2.gb"] = joinpath [lit "out"] (lit "a.gb")
      \/ path_exists fs (joinpath [lit "out"] (lit "a.gb")) = true
         /\ exists n,
              (1 <= n)%nat
              /\ [lit "out"; lit "a_2.gb"]
                 = [lit "out"] ++ [lit "a" ++ lit "_" ++ str_of_nat n ++ lit ".gb"]
              /\ forall k, (1 <= k < n)%nat ->
                   path_exists fs
                     ([lit "out"] ++ [lit "a" ++ lit "_" ++ str_of_nat k
                                      ++ lit ".gb"]) = true).
Proof.
  intros fs.
  apply (zip_entry_target_first_free [(lit "sub/a.gb", [Byte.x01])]
           [lit "out"] (lit "sub/a.gb") fs
           (fst (extract_entry [(lit "sub/a.gb", [Byte.x01])] [lit "out"]
                   (lit "sub/a.gb") fs))).
  apply injective_projections; [reflexivity | vm_compute; reflexivity].
Defined.

Module FrameFacts.

Lemma unchanged_refl (out_dir : Path) (fs : fsys) :
  unchanged_outside out_dir fs fs.
Proof. intros p _. reflexivity. Qed.

Lemma unchanged_trans (out_dir : Path) (fs1 fs2 fs3 : fsys) :
  unchanged_outside out_dir fs1 fs2 -> unchanged_outside out_dir fs2 fs3 ->
  unchanged_outside out_dir fs1 fs3.
Proof. intros H1 H2 p Hp. now rewrite (H2 p Hp), (H1 p Hp). Qed.

Lemma unchanged_insert (out_dir q : Path) (n : node) (fs : fsys) :
  strictly_under out_dir q -> unchanged_outside out_dir fs (<[q := n]> fs).
Proof.
  intros Hq p Hp. apply lookup_insert_ne. intros ->. contradiction.
Qed.

Lemma unchanged_delete (out_dir q : Path) (fs : fsys) :
  strictly_under out_dir q -> unchanged_outside out_dir fs (delete q fs).
Proof.
  intros Hq p Hp. apply lookup_delete_ne. intros ->. contradiction.
Qed.

Lemma not_under_self (out_dir : Path) : ~ strictly_under out_dir out_dir.
Proof.
  intros (rel & Hrel & H). now apply (ArchiveFacts.snoc_ne_self out_dir rel).
Qed.

Lemma unchanged_is_dir (out_dir : Path) (fs fs' : fsys) :
  unchanged_outside out_dir fs fs' ->
  is_dir fs out_dir = true -> is_dir fs' out_dir = true.
Proof.
  intros H Hd. unfold is_dir in *. now rewrite (H _ (not_under_self out_dir)).
Qed.

Lemma bind_frames {A B} (out_dir : Path) (m : M A) (k : A -> M B) :
  frames out_dir m -> (forall a, frames out_dir (k a)) ->
  frames out_dir (m ≫= k).
Proof.
  intros Hm Hk fs Hd. unfold mbind, M_bind, bind.
  specialize (Hm fs Hd). destruct (m fs) as [fs1 [a|e|]]; simpl in *;
    try assumption.
  eapply unchanged_trans; [exact Hm|].
  apply Hk. now apply (unchanged_is_dir out_dir fs).
Qed.

Lemma ret_frames {A} (out_dir : Path) (a : A) : frames out_dir (ret a).
Proof. intros fs _. apply unchanged_refl. Qed.

Lemma mkdir_frames (out_dir q : Path) :
  strictly_under out_dir q -> frames out_dir (mkdir q).
Proof.
  intros Hq fs _. unfold mkdir.
  destruct (parent_error fs q); [apply unchanged_refl|].
  destruct (stat fs q); simpl; [apply unchanged_refl|].
  now apply unchanged_insert.
Qed.

(** [os.makedirs] stops climbing at the first directory that is there, so
    below an existing [out_dir] it never leaves it. *)
Lemma makedirs_frames (out_dir ds : Path) (j : nat) :
  (S j <= length ds)%nat ->
  frames out_dir (makedirs (length out_dir + S j) (out_dir ++ ds)).
Proof.
  induction j as [|j IH]; intros Hj; rewrite Nat.add_succ_r; cbn [makedirs].
  - apply bind_frames.
    + intros fs Hd. rewrite Nat.add_0_r, take_app_length.
      rewrite (FsFacts.stat_is_dir _ _ Hd). apply unchanged_refl.
    + intros _. apply mkdir_frames. exists (take 1 ds).
      split; [now destruct ds|].
      rewrite take_app_ge by lia.
      now replace (S (length out_dir + 0) - length out_dir)%nat with 1%nat
        by lia.
  - apply bind_frames.
    + intros fs Hd. destruct (stat fs _); [apply unchanged_refl|].
      specialize (IH ltac:(lia) fs Hd). unfold pass_exists.
      destruct (makedirs _ _ fs) as [fs' [a|[]|]]; exact IH.
    + intros _. apply mkdir_frames. exists (take (S (S j)) ds).
      split; [now destruct ds|].
      rewrite take_app_ge by lia. do 2 f_equal. lia.
Qed.

Lemma make_upperdirs_frames (out_dir ds : Path) :
  frames out_dir (make_upperdirs (out_dir ++ ds)).
Proof.
  intros fs Hd. unfold make_upperdirs.
  destruct (stat fs (out_dir ++ ds)) eqn:E; [apply unchanged_refl|].
  destruct ds as [|d ds].
  { rewrite app_nil_r, (FsFacts.stat_is_dir _ _ Hd) in E. discriminate. }
  rewrite length_app. cbn [length].
  apply (makedirs_frames out_dir (d :: ds) (length ds)); [simpl; lia | exact Hd].
Qed.

Lemma write_file_frames (out_dir q : Path) (data : list Byte.byte) :
  strictly_under out_dir q -> frames out_dir (write_file q data).
Proof.
  intros Hq fs _. unfold write_file.
  destruct (parent_error fs q); [apply unchanged_refl|].
  destruct (stat fs q) as [[]|]; simpl;
    [now apply unchanged_insert | apply unchanged_refl
    | now apply unchanged_insert].
Qed.

Lemma rename_frames (out_dir src dst : Path) :
  strictly_under out_dir src -> strictly_under out_dir dst ->
  frames out_dir (rename src dst).
Proof.
  intros Hs Hd fs _. unfold rename.
  destruct (parent_error fs src); [apply unchanged_refl|].
  destruct (parent_error fs dst); [apply unchanged_refl|].
  destruct (fs !! src) as [[]|]; simpl; try apply unchanged_refl.
  destruct (is_above dst src); [apply unchanged_refl|].
  destruct (stat fs dst) as [[]|]; simpl; try apply unchanged_refl;
    (apply (unchanged_trans _ _ (delete src fs));
     [apply unchanged_delete, Hs | apply unchanged_insert, Hd]).
Qed.

Lemma split_on_snoc (c x : N) (pre : pystr) :
  x <> c -> exists init l, split_on c (pre ++ [x]) = init ++ [l ++ [x]].
Proof.
  intros Hx. induction pre as [|y pre (init & l & IH)]; simpl.
  - destruct (N.eqb_spec x c); [contradiction|]. now exists [], [].
  - rewrite IH. destruct init as [|i0 init]; simpl.
    + destruct (N.eqb y c); [now exists [[]], l | now exists [], (y :: l)].
    + destruct (N.eqb y c);
        [now exists ([] :: i0 :: init), l | now exists ((y :: i0) :: init), l].
Qed.

Lemma extract_parts_rom (name : pystr) :
  is_rom_name name = true -> extract_parts name <> [].
Proof.
  intros (pre & x & -> & Hsep & Hdot)%ZipExtra.rom_name_last.
  destruct (split_on_snoc (ch "/") x pre Hsep) as (init & l & Hs).
  unfold extract_parts. rewrite Hs, filter_app.
  rewrite filter_cons_True.
  - now destruct (filter _ init).
  - split; [now destruct l|].
    split; intros H.
    + destruct l as [|? [|]]; simpl in H; try discriminate H.
      injection H as H. contradiction.
    + destruct l as [|? [|? [|]]]; simpl in H; try discriminate H.
      injection H as _ H. contradiction.
Qed.

Lemma zf_extract_frames (entries : list (pystr * list Byte.byte))
    (name : pystr) (out_dir : Path) :
  frames out_dir (zf_extract entries name out_dir).
Proof.
  unfold zf_extract.
  destruct (getinfo entries name); [|intros fs _; apply unchanged_refl].
  destruct (extract_parts name) as [|c rel] eqn:E using rev_ind;
    [intros fs _; apply unchanged_refl|].
  clear IHrel. destruct (is_empty _); [intros fs _; apply unchanged_refl|].
  rewrite app_assoc, FsFacts.parent_snoc, <- app_assoc.
  apply bind_frames; [apply make_upperdirs_frames|].
  intros _. apply write_file_frames. exists (rel ++ [c]).
  split; [now destruct rel | reflexivity].
Qed.

Lemma extract_entry_frames (entries : list (pystr * list Byte.byte))
    (out_dir : Path) (name : pystr) :
  is_rom_name name = true -> inside_name name ->
  frames out_dir (extract_entry entries out_dir name).
Proof.
  intros Hrom [Hrel Hparts] fs Hd. unfold extract_entry.
  destruct (ExtractFacts.choose_out_path_spec out_dir (basename name) fs
              (ZipFacts.basename_no_sep name)) as (q & Hq & _ & Hform).
  assert (strictly_under out_dir q) as Hunder.
  { destruct Hform as [-> | (_ & n & _ & -> & _)].
    - rewrite ZipExtra.rom_basename by assumption. eexists. split; [|reflexivity].
      discriminate.
    - eexists. split; [|reflexivity]. discriminate. }
  unfold mbind at 1, M_bind at 1, bind at 1. rewrite Hq.
  pose proof (extract_parts_rom name Hrom) as Hne.
  assert (frames out_dir
            (zf_extract entries name out_dir;;
             (if bool_decide (joinpath out_dir name <> q)
              then rename (joinpath out_dir name) q else ret tt);;
             ret q)) as HF.
  { apply bind_frames; [apply zf_extract_frames|].
    intros _. apply bind_frames; [|intros _; apply ret_frames].
    case_bool_decide; [|apply ret_frames].
    apply rename_frames; [|assumption].
    unfold joinpath. rewrite Hrel, <- Hparts.
    now exists (extract_parts name). }
  exact (HF fs Hd).
Qed.

Lemma extract_entries_frames (entries : list (pystr * list Byte.byte))
    (out_dir : Path) (names : list pystr) :
  List.Forall (fun n => is_rom_name n = true /\ inside_name n) names ->
  forall acc, frames out_dir (extract_entries entries out_dir names acc).
Proof.
  induction 1 as [|name rest [Hrom Hin] _ IH]; intros acc; simpl.
  - apply ret_frames.
  - apply bind_frames; [now apply extract_entry_frames|].
    intros q. apply IH.
Qed.

End FrameFacts.

(** X14: let the output directory be there, and let the ROM entries of the
    archive have names that are not absolute and have no [..] part.  Then
    the zip extractor changes nothing outside the output directory: every
    path that is not below it holds afterwards what it held before, whether
    the extraction succeeds or fails.  (Without the output directory
    [zf.extract] makes it, and the missing directories above it.) *)
Theorem zip_extraction_confined (exn_str : exn -> pystr)
    (entries : list (pystr * list Byte.byte)) (out_dir : Path) (fs : fsys) :
  is_dir fs out_dir = true ->
  (forall name, In name (gb_files (namelist entries)) -> inside_name name) ->
  unchanged_outside out_dir fs
    (fst (extract_gb_gbc_from_zip exn_str (Zip entries) out_dir fs)).
Proof.
  intros Hdir Hin. unfold extract_gb_gbc_from_zip.
  destruct (is_empty _); [apply FrameFacts.unchanged_refl|].
  assert (frames out_dir
            (extract_entries entries out_dir (gb_files (namelist entries)) []))
    as H.
  { apply FrameFacts.extract_entries_frames, List.Forall_forall.
    intros n Hn. split; [|now apply Hin].
    pose proof (ZipExtra.gb_files_rom_names (namelist entries)) as Hall.
    rewrite List.Forall_forall in Hall. now apply Hall. }
  specialize (H fs Hdir).
  destruct (extract_entries _ _ _ _ _) as [fs' [roms|e|]]; exact H.
Qed.

Lemma zip_extraction_confined_witness :
  let fs : fsys :=
    {[ [lit "out"] := Dir; [lit "home"; lit "a.gb"] := File [Byte.x07] ]} in
  unchanged_outside [lit "out"] fs
    (fst (extract_gb_gbc_from_zip (fun _ => [])
            (Zip [(lit "a.gb", [Byte.x01]); (lit "sub/a.gb", [Byte.x02]);
                  (lit "notes.txt", [])])
            [lit "out"] fs)).
Proof.
  intros fs.
  apply (zip_extraction_confined (fun _ => [])
           [(lit "a.gb", [Byte.x01]); (lit "sub/a.gb", [Byte.x02]);
            (lit "notes.txt", [])] [lit "out"] fs).
  - vm_compute. reflexivity.
  - intros name Hin. vm_compute in Hin.
    destruct Hin as [<-|[<-|[]]]; split; vm_compute; reflexivity.
Defined.

(** ** Zip extraction: archives without clashes *)

Module NoClash.

Lemma split_on_rfind (c : N) (s : pystr) :
  match rfind c s with
  | None => split_on c s = [s]
  | Some i => exists init, init <> [] /\ split_on c s = init ++ [drop (S i) s]
  end.
Proof.
  induction s as [|y r IH]; [reflexivity|]. cbn [rfind split_on].
  destruct (rfind c r) as [i|].
  - destruct IH as (init & Hne & ->).
    destruct init as [|i0 init]; [contradiction|]. cbn [app drop].
    destruct (N.eqb y c).
    + now exists ([] :: i0 :: init).
    + now exists ((y :: i0) :: init).
  - rewrite IH. destruct (N.eqb y c); [|reflexivity].
    exists [[]]. split; [discriminate|]. cbn [drop]. now rewrite drop_0.
Qed.

Lemma split_on_basename (s : pystr) :
  exists init, split_on (ch "/") s = init ++ [basename s].
Proof.
  unfold basename. pose proof (split_on_rfind (ch "/") s) as H.
  destruct (rfind (ch "/") s) as [i|].
  - destruct H as (init & _ & ->). now exists init.
  - rewrite H. now exists [].
Qed.

Lemma extract_parts_rom_last (name : pystr) :
  is_rom_name name = true ->
  extract_parts name = dir_parts name ++ [basename name].
Proof.
  intros Hrom. unfold dir_parts.
  assert (exists ds, extract_parts name = ds ++ [basename name]) as [ds ->].
  { destruct (split_on_basename name) as [init Hs].
    unfold extract_parts. rewrite Hs, filter_app. eexists. f_equal.
    rewrite filter_cons_True; [reflexivity|].
    destruct (ZipExtra.rom_name_last name Hrom) as (pre & c & -> & Hsep & Hdot).
    rewrite ZipExtra.basename_snoc by assumption.
    split; [now destruct (basename pre)|].
    split; intros H.
    - destruct (basename pre) as [|? [|]]; simpl in H; try discriminate H.
      injection H as H. contradiction.
    - destruct (basename pre) as [|? [|? [|]]]; simpl in H;
        try discriminate H.
      injection H as _ H. contradiction. }
  now rewrite removelast_last.
Qed.

Lemma getinfo_in (entries : list (pystr * list Byte.byte)) (name : pystr) :
  In name (namelist entries) -> exists data, getinfo entries name = Some data.
Proof.
  unfold getinfo, namelist.
  assert (forall acc,
            (is_Some acc \/ In name (map fst entries)) ->
            is_Some (fold_left
                       (fun acc e => if pystr_eqb (fst e) name
                                     then Some (snd e) else acc)
                       entries acc)) as H.
  { induction entries as [|[n d] entries IH]; intros acc Hacc; simpl.
    - destruct Hacc as [|[]]. assumption.
    - apply IH. unfold pystr_eqb. simpl. case_bool_decide; [left; eauto|].
      destruct Hacc as [|[|]]; [now left | contradiction | now right]. }
  intros Hin. destruct (H None (or_intror Hin)) as [data Hd]. eauto.
Qed.

Lemma mkdir_ok (p : Path) (fs : fsys) :
  stat fs (parent p) = Some Dir -> stat fs p = None ->
  mkdir p fs = (<[p := Dir]> fs, Ok tt).
Proof. intros Hp Hn. unfold mkdir, parent_error. now rewrite Hp, Hn. Qed.

Lemma write_file_ok (p : Path) (data : list Byte.byte) (fs : fsys) :
  stat fs (parent p) = Some Dir -> stat fs p = None ->
  write_file p data fs = (<[p := File data]> fs, Ok tt).
Proof. intros Hp Hn. unfold write_file, parent_error. now rewrite Hp, Hn. Qed.

Lemma rename_ok (src dst : Path) (data : list Byte.byte) (fs : fsys) :
  stat fs (parent src) = Some Dir -> stat fs (parent dst) = Some Dir ->
  fs !! src = Some (File data) -> is_above dst src = false ->
  stat fs dst = None ->
  rename src dst fs = (<[dst := File data]> (delete src fs), Ok tt).
Proof.
  intros Hs Hd Hsrc Ha Hdst. unfold rename, parent_error.
  now rewrite Hs, Hd, Hsrc, Ha, Hdst.
Qed.

Lemma parent_take (out_dir ds : Path) (j : nat) :
  (S j <= length ds)%nat ->
  parent (out_dir ++ take (S j) ds) = out_dir ++ take j ds.
Proof.
  intros Hj. destruct (FsFacts.take_snoc ds j Hj) as [x ->].
  now rewrite app_assoc, FsFacts.parent_snoc.
Qed.

Lemma take_ne (out_dir ds : Path) (j k : nat) :
  (j <= length ds)%nat -> (k <= length ds)%nat -> j <> k ->
  out_dir ++ take j ds <> out_dir ++ take k ds.
Proof.
  intros Hj Hk Hne H%app_inv_head. apply (f_equal length) in H.
  rewrite !length_take in H. lia.
Qed.

(** [os.makedirs] below a directory that is there, with no file in the way:
    the missing directories are added and nothing else changes. *)
Lemma makedirs_spec (out_dir ds : Path) :
  forall j fs,
    (S j <= length ds)%nat ->
    stat fs out_dir = Some Dir ->
    fs !! (out_dir ++ take (S j) ds) = None ->
    (forall k d, (1 <= k <= S j)%nat ->
       fs !! (out_dir ++ take k ds) <> Some (File d)) ->
    exists fs',
      makedirs (length out_dir + S j) (out_dir ++ ds) fs = (fs', Ok tt)
      /\ fs' !! (out_dir ++ take (S j) ds) = Some Dir
      /\ (forall q x, fs !! q = Some x -> fs' !! q = Some x)
      /\ (forall q x, fs' !! q = Some x ->
            fs !! q = Some x
            \/ (x = Dir
                /\ exists k, (1 <= k <= S j)%nat /\ q = out_dir ++ take k ds)).
Proof.
  induction j as [|j IH]; intros fs Hj Hout Hnone Hfile;
    rewrite Nat.add_succ_r; cbn [makedirs].
  - rewrite Nat.add_0_r.
    erewrite ArchiveFacts.bind_step;
      [|rewrite take_app_length, Hout; reflexivity].
    replace (S (length out_dir)) with (length out_dir + 1)%nat by lia.
    rewrite take_app_add, mkdir_ok.
    + eexists. split; [reflexivity|]. split; [apply lookup_insert_eq|].
      split.
      * intros q x Hq. rewrite lookup_insert_ne; [assumption|]. congruence.
      * intros q x. rewrite lookup_insert. case_decide as Hq.
        -- intros [= <-]. right. split; [reflexivity|]. exists 1%nat.
           split; [lia | now symmetry].
        -- now left.
    + rewrite parent_take by assumption. now rewrite take_0, app_nil_r.
    + rewrite FsFacts.stat_under; [assumption | now destruct ds].
  - assert (exists fs1,
              (fun fs0 : fsys =>
                 match stat fs0 (take (length out_dir + S j) (out_dir ++ ds)) with
                 | Some _ => (fs0, Ok tt)
                 | None =>
                     pass_exists
                       (makedirs (length out_dir + S j) (out_dir ++ ds)) fs0
                 end) fs = (fs1, Ok tt)
              /\ fs1 !! (out_dir ++ take (S j) ds) = Some Dir
              /\ (forall q x, fs !! q = Some x -> fs1 !! q = Some x)
              /\ (forall q x, fs1 !! q = Some x ->
                    fs !! q = Some x
                    \/ (x = Dir
                        /\ exists k, (1 <= k <= S j)%nat
                                     /\ q = out_dir ++ take k ds)))
      as (fs1 & Hrun & Hdir & Hpres & Hnew).
    { cbv beta. rewrite take_app_add.
      rewrite FsFacts.stat_under by now destruct ds.
      destruct (fs !! (out_dir ++ take (S j) ds)) as [[d|]|] eqn:E.
      - exfalso. apply (Hfile (S j) d); [lia | assumption].
      - exists fs. split; [reflexivity|]. split; [assumption|].
        split; [auto|]. intros q x Hq. now left.
      - destruct (IH fs) as (fs1 & Hrun & Hrest); [lia | assumption.. | |].
        + intros k d Hk. apply Hfile. lia.
        + exists fs1. unfold pass_exists. rewrite Hrun.
          split; [reflexivity | exact Hrest]. }
    rewrite <- Nat.add_succ_r.
    rewrite (ArchiveFacts.bind_step _ _ fs fs1 tt Hrun).
    replace (S (length out_dir + S j)) with (length out_dir + S (S j))%nat
      by lia.
    rewrite take_app_add, mkdir_ok.
    + eexists. split; [reflexivity|]. split; [apply lookup_insert_eq|].
      split.
      * intros q x Hq. rewrite lookup_insert_ne; [now apply Hpres|].
        intros <-. congruence.
      * intros q x. rewrite lookup_insert. case_decide as Hq.
        -- intros [= <-]. right. split; [reflexivity|]. exists (S (S j)).
           split; [lia | now symmetry].
        -- intros Hq1. apply Hnew in Hq1 as [Hq1 | (-> & k & Hk & ->)];
             [now left|].
           right. split; [reflexivity|]. exists k. split; [lia | reflexivity].
    + rewrite parent_take by assumption.
      rewrite FsFacts.stat_under by now destruct ds. assumption.
    + rewrite FsFacts.stat_under by now destruct ds.
      destruct (fs1 !! (out_dir ++ take (S (S j)) ds)) as [x|] eqn:E;
        [exfalso | reflexivity].
      apply Hnew in E as [E | (_ & k & Hk & E)]; [congruence|].
      revert E. apply take_ne; lia.
Qed.

(** The same for the guarded call of [zf.extract]. *)
Lemma make_upperdirs_spec (out_dir ds : Path) (fs : fsys) :
  stat fs out_dir = Some Dir ->
  (forall k d, (1 <= k <= length ds)%nat ->
     fs !! (out_dir ++ take k ds) <> Some (File d)) ->
  exists fs',
    make_upperdirs (out_dir ++ ds) fs = (fs', Ok tt)
    /\ stat fs' (out_dir ++ ds) = Some Dir
    /\ stat fs' out_dir = Some Dir
    /\ (forall q x, fs !! q = Some x -> fs' !! q = Some x)
    /\ (forall q x, fs' !! q = Some x ->
          fs !! q = Some x
          \/ (x = Dir
              /\ exists k, (1 <= k <= length ds)%nat
                           /\ q = out_dir ++ take k ds)).
Proof.
  intros Hout Hfile. unfold make_upperdirs.
  destruct ds as [|d0 ds0].
  { rewrite app_nil_r, Hout. exists fs. repeat split; auto. }
  set (ds := d0 :: ds0) in *.
  assert (take (length ds) ds = ds) as Htake by apply firstn_all.
  rewrite FsFacts.stat_under by discriminate.
  destruct (fs !! (out_dir ++ ds)) as [[d|]|] eqn:E.
  - exfalso. apply (Hfile (length ds) d); [simpl; lia|]. now rewrite Htake.
  - exists fs. rewrite FsFacts.stat_under by discriminate.
    repeat split; auto.
  - destruct (makedirs_spec out_dir ds (length ds0) fs)
      as (fs' & Hrun & Hdir & Hpres & Hnew);
      [reflexivity | assumption | | exact Hfile |].
    { change (S (length ds0)) with (length ds). now rewrite Htake. }
    exists fs'. rewrite length_app. split; [exact Hrun|].
    change (S (length ds0)) with (length ds) in Hdir. rewrite Htake in Hdir.
    rewrite FsFacts.stat_under by discriminate.
    split; [assumption|]. split; [|split; assumption].
    destruct out_dir; [reflexivity|]. now apply Hpres.
Qed.

Lemma take_in {A} (l pre : list A) (k : nat) (x : A) :
  take k l = pre ++ [x] -> In x l.
Proof.
  intros H. rewrite <- (take_drop k l), H.
  apply in_or_app. left. apply in_or_app. right. now left.
Qed.

(** One entry, with nothing in its way, on its way to [out_dir/x]. *)
Lemma extract_entry_run (entries : list (pystr * list Byte.byte))
    (out_dir : Path) (n x : pystr) (data : list Byte.byte) (fs : fsys) :
  is_rom_name n = true -> inside_name n ->
  getinfo entries n = Some data ->
  is_dir fs out_dir = true ->
  choose_out_path out_dir (basename n) fs = (fs, Ok (out_dir ++ [x])) ->
  fs !! (out_dir ++ dir_parts n ++ [basename n]) = None ->
  (forall k d, (1 <= k <= length (dir_parts n))%nat ->
     fs !! (out_dir ++ take k (dir_parts n)) <> Some (File d)) ->
  ~ In x (dir_parts n) ->
  exists fs',
    extract_entry entries out_dir n fs = (fs', Ok (out_dir ++ [x]))
    /\ fs' !! (out_dir ++ [x]) = Some (File data)
    /\ (forall p y, fs !! p = Some y -> fs' !! p = Some y)
    /\ (forall p y, p <> out_dir ++ [x] -> fs' !! p = Some y ->
          fs !! p = Some y
          \/ (y = Dir
              /\ exists k, (1 <= k <= length (dir_parts n))%nat
                           /\ p = out_dir ++ take k (dir_parts n))).
Proof.
  intros Hrom [Hrel Hpp] Hdata Hout Hchoose P2 P3 P4.
  pose proof (extract_parts_rom_last n Hrom) as Hparts.
  set (b := basename n) in *. set (ds := dir_parts n) in *.
  assert (joinpath out_dir b = out_dir ++ [b]) as Hb
    by now apply ZipExtra.rom_basename.
  assert (joinpath out_dir n = out_dir ++ ds ++ [b]) as Hsrc.
  { unfold joinpath. now rewrite Hrel, <- Hpp, Hparts. }
  assert (fs !! (out_dir ++ [x]) = None) as P1.
  { destruct (ExtractFacts.choose_out_path_spec out_dir b fs
                (ZipFacts.basename_no_sep n)) as (q & Hq & Hfree & _).
    rewrite Hq in Hchoose. injection Hchoose as ->.
    unfold path_exists in Hfree.
    now destruct (fs !! (out_dir ++ [x])). }
  assert (ds = [] -> x = b) as Htop.
  { intros Hds. rewrite Hds in P2. cbn [app] in P2.
    pose proof (ArchiveFacts.choose_free out_dir b fs) as Hc.
    rewrite Hb in Hc. rewrite Hc in Hchoose.
    - injection Hchoose as H%app_inv_head. now injection H.
    - unfold path_exists. now rewrite P2. }
  apply FsFacts.stat_is_dir in Hout.
  destruct (make_upperdirs_spec out_dir ds fs Hout P3)
    as (fs1 & Hmk & Hup & Hout1 & Hpres & Hnew).
  assert (fs1 !! (out_dir ++ ds ++ [b]) = None) as Hsrc1.
  { destruct (fs1 !! (out_dir ++ ds ++ [b])) as [y|] eqn:E;
      [exfalso | reflexivity].
    apply Hnew in E as [E | (_ & k & Hk & H%app_inv_head)]; [congruence|].
    apply (f_equal length) in H. rewrite length_app, length_take in H.
    simpl in H. lia. }
  assert (fs1 !! (out_dir ++ [x]) = None) as Hq1.
  { destruct (fs1 !! (out_dir ++ [x])) as [y|] eqn:E;
      [exfalso | reflexivity].
    apply Hnew in E as [E | (_ & k & Hk & H%app_inv_head)]; [congruence|].
    apply P4. apply (take_in ds [] k). now rewrite <- H. }
  assert (zf_extract entries n out_dir fs
          = (<[out_dir ++ ds ++ [b] := File data]> fs1, Ok tt)) as Hzf.
  { unfold zf_extract. rewrite Hdata, Hparts.
    replace (is_empty (ds ++ [b])) with false by now destruct ds.
    replace (parent (out_dir ++ ds ++ [b])) with (out_dir ++ ds)
      by now rewrite (app_assoc out_dir), FsFacts.parent_snoc.
    rewrite (ArchiveFacts.bind_step _ _ fs fs1 tt Hmk).
    apply write_file_ok.
    - now rewrite (app_assoc out_dir), FsFacts.parent_snoc.
    - rewrite FsFacts.stat_under by now destruct ds. exact Hsrc1. }
  unfold extract_entry. fold b.
  rewrite (ArchiveFacts.bind_step _ _ fs fs (out_dir ++ [x]) Hchoose).
  rewrite (ArchiveFacts.bind_step _ _ fs _ tt Hzf). rewrite Hsrc.
  destruct (decide (ds = [])) as [Hds|Hds].
  - rewrite (Htop Hds) in *. rewrite Hds in *. cbn [app] in *.
    rewrite bool_decide_eq_false_2 by tauto.
    eexists. split; [reflexivity|]. split; [apply lookup_insert_eq|].
    split.
    + intros p y Hp. rewrite lookup_insert_ne by congruence. now apply Hpres.
    + intros p y Hne Hp. rewrite lookup_insert_ne in Hp by congruence.
      now apply Hnew.
  - assert (out_dir ++ ds ++ [b] <> out_dir ++ [x]) as Hne.
    { intros H%app_inv_head. apply (f_equal length) in H.
      rewrite length_app in H. simpl in H. destruct ds; [contradiction|].
      simpl in H. lia. }
    rewrite bool_decide_eq_true_2 by assumption.
    erewrite ArchiveFacts.bind_step.
    2: { apply rename_ok with (data := data).
         - rewrite (app_assoc out_dir), FsFacts.parent_snoc.
           rewrite FsFacts.stat_under in * by assumption.
           rewrite lookup_insert_ne; [assumption|].
           intros H. apply (f_equal length) in H.
           rewrite !length_app in H. simpl in H. lia.
         - rewrite FsFacts.parent_snoc.
           destruct out_dir as [|o out_dir]; [reflexivity|].
           cbn [stat] in *. rewrite lookup_insert_ne; [assumption|].
           intros H. apply (f_equal length) in H.
           rewrite !length_app in H. simpl in H. lia.
         - apply lookup_insert_eq.
         - unfold is_above. apply andb_false_iff. left.
           apply bool_decide_eq_false_2.
           rewrite length_app. simpl length. rewrite take_app_add.
           intros H%app_inv_head. apply P4.
           destruct ds as [|d0 ds0]; [contradiction|].
           simpl in H. injection H as ->. now left.
         - rewrite FsFacts.stat_under by discriminate.
           rewrite lookup_insert_ne by congruence. exact Hq1. }
    eexists. split; [reflexivity|]. split; [apply lookup_insert_eq|].
    split.
    + intros p y Hp. rewrite lookup_insert_ne by congruence.
      rewrite lookup_delete_ne by congruence.
      rewrite lookup_insert_ne by congruence. now apply Hpres.
    + intros p y Hnq Hp. rewrite lookup_insert_ne in Hp by congruence.
      rewrite lookup_delete in Hp. case_decide as Hps; [discriminate|].
      rewrite lookup_insert_ne in Hp by congruence.
      now apply Hnew.
Qed.


(** One entry on its way to the name [tgt n], after the entries [done]. *)
Lemma extract_entry_step (entries : list (pystr * list Byte.byte))
    (out_dir : Path) (tgt : pystr -> pystr) (done : list pystr) (n : pystr)
    (fs : fsys) :
  zip_inv entries out_dir tgt done fs ->
  is_rom_name n = true -> inside_name n -> In n (namelist entries) ->
  choose_out_path out_dir (basename n) fs = (fs, Ok (out_dir ++ [tgt n])) ->
  (dir_parts n = [] -> forall m, In m done -> tgt m <> basename n) ->
  (forall m, In m done -> ~ In (basename n) (dir_parts m)) ->
  (forall m, In m (n :: done) -> ~ In (tgt m) (dir_parts n)) ->
  exists fs',
    extract_entry entries out_dir n fs = (fs', Ok (out_dir ++ [tgt n]))
    /\ zip_inv entries out_dir tgt (done ++ [n]) fs'.
Proof.
  intros (I0 & I1 & I2) Hrom Hinside Hin Hchoose Htop Hnd Hdn.
  destruct (getinfo_in entries n Hin) as [data Hdata].
  destruct (extract_entry_run entries out_dir n (tgt n) data fs Hrom
              Hinside Hdata I0 Hchoose)
    as (fs' & Hrun & Fq & Fk & Fo).
  - destruct (fs !! (out_dir ++ dir_parts n ++ [basename n])) as [x|] eqn:E;
      [exfalso|reflexivity].
    apply I2 in E as [(m & Hm & Hr) | (_ & m & k & Hm & _ & Hr)].
    + destruct (dir_parts n) as [|d0 ds0] eqn:Hds.
      * injection Hr as Hr. now apply (Htop eq_refl m Hm).
      * apply (f_equal length) in Hr. simpl in Hr.
        rewrite length_app in Hr. simpl in Hr. lia.
    + apply (Hnd m Hm). apply (take_in _ (dir_parts n) k). now rewrite <- Hr.
    + now destruct (dir_parts n).
  - intros k d Hk E.
    apply I2 in E as [(m & Hm & Hr) | (Hx & _)]; [|discriminate Hx|].
    + apply (Hdn m (or_intror Hm)). apply (take_in _ [] k). now rewrite Hr.
    + destruct (dir_parts n); simpl in *; [lia|].
      destruct k; [lia | discriminate].
  - apply Hdn. now left.
  - exists fs'. split; [assumption|]. split; [|split].
    + unfold is_dir in *.
      destruct (fs !! out_dir) as [[]|] eqn:E; try discriminate.
      now rewrite (Fk _ _ E).
    + intros m Hm. apply in_app_or in Hm as [Hm | [<- | []]].
      * destruct (I1 m Hm) as (d & Hd & Hl). exists d.
        split; [assumption | now apply Fk].
      * now exists data.
    + intros rel x Hrel E.
      destruct (decide (rel = [tgt n])) as [->|Hne].
      * left. exists n. split; [apply in_or_app; right; now left | reflexivity].
      * apply Fo in E; [|intros H%app_inv_head; contradiction].
        destruct E as [E | (-> & k & Hk & H%app_inv_head)].
        -- apply I2 in E as [(m & Hm & Hr) | (Hx & m & k & Hm & Hk & Hr)];
             [| |assumption].
           ++ left. exists m. split; [apply in_or_app; now left | assumption].
           ++ right. split; [assumption|]. exists m, k.
              split; [apply in_or_app; now left | now split].
        -- right. split; [reflexivity|]. exists n, k.
           split; [apply in_or_app; right; now left | now split].
Qed.

(** Below [out_dir] the invariant tells which names are taken. *)
Lemma zip_inv_free (entries : list (pystr * list Byte.byte))
    (out_dir : Path) (tgt : pystr -> pystr) (done : list pystr) (fs : fsys)
    (x : pystr) :
  zip_inv entries out_dir tgt done fs ->
  (forall m, In m done -> tgt m <> x) ->
  (forall m, In m done -> ~ In x (dir_parts m)) ->
  fs !! (out_dir ++ [x]) = None.
Proof.
  intros (_ & _ & I2) Ht Hd.
  destruct (fs !! (out_dir ++ [x])) as [y|] eqn:E; [exfalso|reflexivity].
  apply I2 in E as [(m & Hm & Hr) | (_ & m & k & Hm & _ & Hr)];
    [| |discriminate].
  - injection Hr as Hr. now apply (Ht m).
  - apply (Hd m Hm). apply (take_in _ [] k). now rewrite <- Hr.
Qed.

(** An entry whose base name is free keeps it. *)
Lemma extract_entry_no_clash (entries : list (pystr * list Byte.byte))
    (out_dir : Path) (tgt : pystr -> pystr) (done : list pystr) (n : pystr)
    (fs : fsys) :
  zip_inv entries out_dir tgt done fs ->
  is_rom_name n = true -> inside_name n -> In n (namelist entries) ->
  tgt n = basename n ->
  (forall m, In m done -> tgt m <> tgt n) ->
  (forall m, In m (n :: done) -> ~ In (tgt m) (dir_parts n)) ->
  (forall m, In m done -> ~ In (tgt n) (dir_parts m)) ->
  exists fs',
    extract_entry entries out_dir n fs = (fs', Ok (out_dir ++ [tgt n]))
    /\ zip_inv entries out_dir tgt (done ++ [n]) fs'.
Proof.
  intros Hinv Hrom Hinside Hin Htgt Hbase Hdn Hnd.
  apply extract_entry_step; try assumption.
  - rewrite Htgt, <- (ZipExtra.rom_basename out_dir n Hrom).
    apply ArchiveFacts.choose_free.
    rewrite ZipExtra.rom_basename by assumption.
    unfold path_exists.
    rewrite (zip_inv_free entries out_dir tgt done fs (basename n) Hinv);
      [reflexivity | |]; rewrite <- Htgt; assumption.
  - intros _ m Hm. rewrite <- Htgt. now apply Hbase.
  - intros m Hm. rewrite <- Htgt. now apply Hnd.
Qed.

Lemma extract_entries_no_clash (entries : list (pystr * list Byte.byte))
    (out_dir : Path) (tgt : pystr -> pystr) (names : list pystr) :
  forall done acc fs,
    zip_inv entries out_dir tgt done fs ->
    List.Forall (fun n => is_rom_name n = true /\ inside_name n
                          /\ In n (namelist entries)
                          /\ tgt n = basename n) names ->
    List.NoDup (map tgt (done ++ names)) ->
    (forall n m, In n (done ++ names) -> In m (done ++ names) ->
       ~ In (tgt m) (dir_parts n)) ->
    exists fs',
      extract_entries entries out_dir names acc fs
      = (fs', Ok (acc ++ map (fun n => out_dir ++ [tgt n]) names))
      /\ zip_inv entries out_dir tgt (done ++ names) fs'.
Proof.
  induction names as [|n rest IH]; intros done acc fs Hinv Hall Hnd Hclash.
  - exists fs. rewrite !app_nil_r. split; [reflexivity | assumption].
  - inversion Hall as [|? ? (Hrom & Hinside & Hin & Htgt) Hrest]; subst.
    destruct (extract_entry_no_clash entries out_dir tgt done n fs Hinv Hrom
                Hinside Hin Htgt) as (fs1 & Hrun & Hinv1).
    + intros m Hm Heq. rewrite map_app in Hnd. simpl in Hnd.
      apply List.NoDup_remove_2 in Hnd. apply Hnd, in_or_app. left.
      rewrite <- Heq. now apply in_map.
    + intros m Hm. apply Hclash.
      * apply in_or_app. right. now left.
      * destruct Hm as [<-|Hm]; apply in_or_app; [right; now left | now left].
    + intros m Hm. apply Hclash; apply in_or_app;
        [now left | right; now left].
    + destruct (IH (done ++ [n]) (acc ++ [out_dir ++ [tgt n]]) fs1)
        as (fs' & Hrest' & Hinv'); try assumption.
      * now rewrite <- app_assoc.
      * intros a c. rewrite <- app_assoc. apply Hclash.
      * exists fs'. cbn [extract_entries].
        rewrite (ArchiveFacts.bind_step _ _ fs fs1 _ Hrun).
        rewrite Hrest'. rewrite <- !app_assoc in *.
        split; [reflexivity | assumption].
Qed.

Lemma extract_entries_app (entries : list (pystr * list Byte.byte))
    (out_dir : Path) (l1 l2 : list pystr) :
  forall acc fs fs1 acc1,
    extract_entries entries out_dir l1 acc fs = (fs1, Ok acc1) ->
    extract_entries entries out_dir (l1 ++ l2) acc fs
    = extract_entries entries out_dir l2 acc1 fs1.
Proof.
  induction l1 as [|n l1 IH]; intros acc fs fs1 acc1 H.
  - injection H as <- <-. reflexivity.
  - cbn [app extract_entries] in *.
    apply ExtractFacts.bind_ok in H as (q & fs0 & Hq & H).
    rewrite (ArchiveFacts.bind_step _ _ fs fs0 _ Hq). now apply IH.
Qed.

End NoClash.

(** X15: a zip archive is extracted in full when nothing clashes.  Let the
    output directory be a directory that holds nothing yet, and let the ROM
    entries have pairwise different base names, names that are not absolute
    and have no [..] part, and no directory part equal to the base name of a
    ROM entry.  Then the extractor succeeds, returns for each ROM entry, in
    order, the path of its base name directly in the output directory, and
    each of these files holds at the end the data of its entry. *)
Theorem zip_extraction_without_clash (exn_str : exn -> pystr)
    (entries : list (pystr * list Byte.byte)) (out_dir : Path) (fs : fsys) :
  let names := gb_files (namelist entries) in
  names <> [] ->
  List.NoDup (map basename names) ->
  (forall n, In n names -> inside_name n) ->
  (forall n m, In n names -> In m names -> ~ In (basename m) (dir_parts n)) ->
  is_dir fs out_dir = true ->
  (forall rel, rel <> [] -> fs !! (out_dir ++ rel) = None) ->
  exists fs',
    extract_gb_gbc_from_zip exn_str (Zip entries) out_dir fs
    = (fs', Ok (map (fun n => out_dir ++ [basename n]) names, msg_success))
    /\ forall n, In n names ->
         exists data,
           getinfo entries n = Some data
           /\ fs' !! (out_dir ++ [basename n]) = Some (File data).
Proof.
  intros names Hne Hnd Hinside Hclash Hdir Hfresh.
  destruct (NoClash.extract_entries_no_clash entries out_dir basename names
              [] [] fs)
    as (fs' & Hrun & _ & I1 & _).
  - split; [assumption|]. split; [intros m []|]. intros rel x Hrel E.
    rewrite Hfresh in E by assumption. discriminate.
  - apply List.Forall_forall. intros n Hn.
    pose proof (ZipExtra.gb_files_rom_names (namelist entries)) as Hall.
    rewrite List.Forall_forall in Hall.
    split; [now apply Hall|]. split; [now apply Hinside|].
    split; [|reflexivity].
    apply list_elem_of_In, list_elem_of_filter in Hn as [_ Hn].
    now apply list_elem_of_In.
  - assumption.
  - assumption.
  - exists fs'. split; [|exact I1].
    unfold extract_gb_gbc_from_zip. fold names.
    destruct names; [contradiction|]. cbn [is_empty].
    now rewrite Hrun.
Qed.

Lemma zip_extraction_without_clash_witness :
  let entries :=
    [(lit "a.gb", [Byte.x01]); (lit "sub/b.GBC", [Byte.x02]);
     (lit "notes.txt", [])] in
  let fs : fsys := {[ [lit "out"] := Dir ]} in
  exists fs',
    extract_gb_gbc_from_zip (fun _ => []) (Zip entries) [lit "out"] fs
    = (fs', Ok ([[lit "out"; lit "a.gb"]; [lit "out"; lit "b.GBC"]],
                msg_success))
    /\ fs' !! [lit "out"; lit "a.gb"] = Some (File [Byte.x01])
    /\ fs' !! [lit "out"; lit "b.GBC"] = Some (File [Byte.x02]).
Proof.
  intros entries fs.
  destruct (zip_extraction_without_clash (fun _ => []) entries [lit "out"] fs)
    as (fs' & Hrun & Hfiles).
  - vm_compute. discriminate.
  - vm_compute. constructor; [intros [H|[]]; discriminate H|].
    constructor; [intros [] | constructor].
  - intros n Hn. vm_compute in Hn.
    destruct Hn as [<-|[<-|[]]]; split; vm_compute; reflexivity.
  - intros n m Hn Hm. vm_compute in Hn, Hm.
    destruct Hn as [<-|[<-|[]]]; destruct Hm as [<-|[<-|[]]];
      vm_compute; intros H; repeat destruct H as [H|H];
      try discriminate H; exact H.
  - vm_compute. reflexivity.
  - intros rel Hrel. apply lookup_singleton_ne.
    intros H. destruct rel; [contradiction | discriminate H].
  - exists fs'. split; [exact Hrun|]. split.
    + destruct (Hfiles (lit "a.gb")) as (data & Hd & Hl);
        [vm_compute; now left|].
      vm_compute in Hd. injection Hd as <-. exact Hl.
    + destruct (Hfiles (lit "sub/b.GBC")) as (data & Hd & Hl);
        [vm_compute; right; now left|].
      vm_compute in Hd. injection Hd as <-. exact Hl.
Defined.

(** ** Archive collector: two entries with one base name *)

Module TwoEntries.

(** An entry whose name occurs once among the ROM names is the one
    [getinfo] finds. *)
Lemma getinfo_entry (entries : list (pystr * list Byte.byte)) (n : pystr)
    (d : list Byte.byte) :
  is_rom_name n = true ->
  List.NoDup (gb_files (namelist entries)) ->
  In (n, d) entries -> getinfo entries n = Some d.
Proof.
  intros Hrom. unfold getinfo, namelist, gb_files.
  assert (forall acc,
            List.NoDup (filter (fun m => is_rom_name m) (map fst entries)) ->
            In (n, d) entries
            \/ acc = Some d /\ ~ In n (map fst entries) ->
            fold_left
              (fun acc e => if pystr_eqb (fst e) n then Some (snd e) else acc)
              entries acc = Some d) as H.
  { induction entries as [|[m x] entries IH]; intros acc Hnd Hacc.
    - destruct Hacc as [Hin | [Hacc _]]; [destruct Hin | now subst acc].
    - cbn [fold_left fst snd]. cbn [map fst] in Hnd.
      destruct (pystr_eqb m n) eqn:Hm;
        [apply bool_decide_eq_true in Hm | apply bool_decide_eq_false in Hm].
      + subst m. rewrite filter_cons_True in Hnd by now apply Is_true_true.
        apply List.NoDup_cons_iff in Hnd as [Hnot Hnd].
        assert (~ In n (map fst entries)) as Hout.
        { intros Hin. apply Hnot, list_elem_of_In, list_elem_of_filter.
          split; [now apply Is_true_true | now apply list_elem_of_In]. }
        apply IH; [assumption|]. right. split; [|assumption].
        destruct Hacc as [[Heq | Hin] | [_ Hno]].
        * now injection Heq as ->.
        * exfalso. apply Hout. now apply (in_map fst) in Hin.
        * exfalso. apply Hno. now left.
      + apply IH.
        * destruct (decide (is_rom_name m)) as [Hr|Hr].
          -- rewrite filter_cons_True in Hnd by assumption.
             now apply List.NoDup_cons_iff in Hnd.
          -- now rewrite filter_cons_False in Hnd by assumption.
        * destruct Hacc as [[Heq | Hin] | [Hacc Hno]].
          -- injection Heq as -> _. contradiction.
          -- now left.
          -- right. split; [assumption|]. intros Hin. apply Hno. now right. }
  intros Hnd Hin. apply H; [assumption | now left].
Qed.

Lemma fmt04_no_sep (n : nat) : ~ In (ch "/") (fmt04 n).
Proof.
  unfold fmt04. intros [H|H]%in_app_or.
  - apply repeat_spec in H. discriminate H.
  - now apply ZipFacts.digits_no_sep in H.
Qed.

Lemma path_stem_incl (p : Path) (c : N) :
  In c (path_stem p) -> In c (path_name p).
Proof.
  unfold path_stem. destruct (suffix_index _); [|auto].
  intros H. rewrite <- (take_drop n (path_name p)).
  apply in_or_app. now left.
Qed.

(** The sub-directory of an archive is one part below the workspace. *)
Lemma subdir_one_part (hash : pystr -> Z) (archive_path base_tmpdir : Path) :
  ~ In (ch "/") (path_name archive_path) ->
  joinpath base_tmpdir (subdir_name hash archive_path)
  = base_tmpdir ++ [subdir_name hash archive_path].
Proof.
  intros Hsep. apply FolderFacts.joinpath_name.
  - discriminate.
  - unfold subdir_name.
    intros [H | [H | [H | H]%in_app_or]%in_app_or]%in_app_or.
    + destruct H as [H|[]]. vm_compute in H. discriminate H.
    + apply Hsep, path_stem_incl.
      rewrite <- (take_drop 20 (path_stem archive_path)).
      apply in_or_app. now left.
    + destruct H as [H|[]]. vm_compute in H. discriminate H.
    + now apply fmt04_no_sep in H.
  - unfold subdir_name. intros H. apply (f_equal length) in H.
    rewrite !length_app in H. simpl in H. lia.
Qed.

(** [mkdir(exist_ok=True)] in a directory that is there. *)
Lemma mkdir_exist_ok_spec (p : Path) (fs : fsys) :
  p <> [] ->
  stat fs (parent p) = Some Dir ->
  (forall data, fs !! p <> Some (File data)) ->
  exists fs',
    mkdir_exist_ok p fs = (fs', Ok tt)
    /\ fs' !! p = Some Dir
    /\ forall q, q <> p -> fs' !! q = fs !! q.
Proof.
  intros Hne Hpar Hfile. unfold mkdir_exist_ok, mkdir, parent_error.
  rewrite Hpar, !FsFacts.stat_lookup by assumption.
  destruct (fs !! p) as [[data|]|] eqn:E.
  - now contradiction (Hfile data).
  - rewrite FsFacts.stat_lookup, E by assumption. now exists fs.
  - eexists. split; [reflexivity|]. split; [apply lookup_insert_eq|].
    intros q Hq. now apply lookup_insert_ne.
Qed.

Lemma renamed_ne (stem suffix : pystr) :
  stem ++ lit "_1" ++ suffix <> stem ++ suffix.
Proof.
  intros H%app_inv_head. apply (f_equal length) in H. simpl in H. lia.
Qed.

Lemma nodup_map_eq {A B} (f : A -> B) (l : list A) (x y : A) :
  List.NoDup (map f l) -> In x l -> In y l -> f x = f y -> x = y.
Proof.
  induction l as [|a l IH]; intros Hnd Hx Hy Hf; [destruct Hx|].
  cbn [map] in Hnd. apply List.NoDup_cons_iff in Hnd as [Hnot Hnd].
  destruct Hx as [->|Hx], Hy as [->|Hy]; auto.
  - exfalso. apply Hnot. rewrite Hf. now apply in_map.
  - exfalso. apply Hnot. rewrite <- Hf. now apply in_map.
Qed.

End TwoEntries.

(** The folders of an entry matter: with the entries [a.gb] and
    [a.gb/a.gb], which have one base name, the second cannot be written
    below the file of the first; with [a.gb] and [a_1.gb/a.gb] the second
    cannot be moved onto its own folder.  Either way the extraction fails
    and the collector returns no ROM at all. *)
Lemma archive_folder_named_like_rom :
  snd (sample_collect [(lit "a.gb", rom_with_header Byte.x00);
                       (lit "a.gb/a.gb", rom_with_header Byte.xc0)])
  = Ok []
  /\ snd (sample_collect [(lit "a.gb", rom_with_header Byte.x00);
                          (lit "a_1.gb/a.gb", rom_with_header Byte.xc0)])
     = Ok [].
Proof. split; vm_compute; reflexivity. Qed.

(** A third ROM entry named like the renamed form takes part in the clash:
    with [a.gb], [sub/a.gb] and [a_1.gb], the third is written over the file
    the second was moved to. *)
Lemma archive_entry_named_like_renamed_rom :
  let run :=
    sample_collect [(lit "a.gb", rom_with_header Byte.x00);
                    (lit "sub/a.gb", rom_with_header Byte.xc0);
                    (lit "a_1.gb", rom_with_header Byte.x80)] in
  snd run
  = Ok [(sample_subdir ++ [lit "a.gb"], lit "a.gb");
        (sample_subdir ++ [lit "a_1.gb"], lit "a_1.gb");
        (sample_subdir ++ [lit "a_1_1.gb"], lit "a_1_1.gb")]
  /\ fst run !! (sample_subdir ++ [lit "a_1.gb"]) = None.
Proof. split; vm_compute; reflexivity. Qed.

(** C2, amended.  Take a deflate-zip archive in which two ROM entries have
    one base name [b], the second of them inside a folder.  Let this be the
    only clash: the other ROM entries have base names of their own, none is
    named like the renamed form [c] of [b] (which is [b] with [_1] before
    the extension that [os.path.splitext] finds), no folder of a ROM entry
    is named like a ROM or like [c], and the names are not absolute and have
    no [..] part.  Collected below an existing workspace, into a
    sub-directory that holds nothing yet, both entries are extracted without
    loss: the file [b] of the sub-directory holds the data of the first and
    the file [c] the data of the second, and the two paths differ.  The
    display name of each collected ROM is the name of its file on disk: [b]
    for the first of the two and the renamed [c] for the second, with no
    archive name in front. *)
Theorem archive_equal_base_names (exn_str : exn -> pystr) (hash : pystr -> Z)
    (open_zip : Path -> zipfile) (seven_zip : Path)
    (run_7za : Path -> Path -> fsys -> fsys * run_result)
    (archive_path base_tmpdir : Path) (fs : fsys)
    (entries : list (pystr * list Byte.byte)) (pre mid post : list pystr)
    (n1 n2 : pystr) (d1 d2 : list Byte.byte) :
  lower (path_suffix archive_path) = lit ".zip" ->
  ~ In (ch "/") (path_name archive_path) ->
  open_zip archive_path = Zip entries ->
  let names := pre ++ n1 :: mid ++ n2 :: post in
  gb_files (namelist entries) = names ->
  In (n1, d1) entries -> In (n2, d2) entries ->
  n1 <> n2 ->
  basename n2 = basename n1 ->
  let b := basename n1 in
  let c := fst (splitext b) ++ lit "_1" ++ snd (splitext b) in
  List.NoDup (map basename (pre ++ n1 :: mid ++ post)) ->
  ~ In c (map basename names) ->
  (forall n, In n names -> inside_name n) ->
  dir_parts n2 <> [] ->
  (forall n m, In n names -> In m names -> ~ In (basename m) (dir_parts n)) ->
  (forall n, In n names -> ~ In c (dir_parts n)) ->
  let subdir := joinpath base_tmpdir (subdir_name hash archive_path) in
  is_dir fs base_tmpdir = true ->
  (forall data, fs !! subdir <> Some (File data)) ->
  (forall rel, rel <> [] -> fs !! (subdir ++ rel) = None) ->
  let plain n := (subdir ++ [basename n], basename n) in
  exists fs',
    collect_from_archive exn_str hash open_zip seven_zip run_7za
      archive_path base_tmpdir fs
    = (fs', Ok (map plain pre ++ (subdir ++ [b], b)
                :: map plain mid ++ (subdir ++ [c], c) :: map plain post))
    /\ fs' !! (subdir ++ [b]) = Some (File d1)
    /\ fs' !! (subdir ++ [c]) = Some (File d2)
    /\ subdir ++ [b] <> subdir ++ [c]
    /\ c <> b.
Proof.
  intros Hsuf Hsep Hzip names Hgb Hin1 Hin2 Hne12 Hbase b c Hothers Hcname
    Hinside Hfolder Hdirs Hdirc subdir Hbasedir Hnofile Hfresh plain.
  set (seg1 := pre ++ n1 :: mid).
  assert (names = seg1 ++ n2 :: post) as Hnames.
  { unfold names, seg1. now rewrite <- app_assoc. }
  assert (forall n, In n names <-> In n seg1 \/ n = n2 \/ In n post) as Hmem.
  { intros n. rewrite Hnames, in_app_iff. simpl. intuition. }
  assert (forall n, In n seg1 \/ In n post ->
            In n (pre ++ n1 :: mid ++ post)) as Hother_in.
  { intros n. unfold seg1. rewrite !in_app_iff. simpl. rewrite in_app_iff.
    intuition. }
  assert (In n1 seg1) as Hn1 by (apply in_or_app; right; now left).
  assert (c <> b) as Hcb.
  { unfold c. rewrite <- (ZipFacts.splitext_app b) at 3.
    apply TwoEntries.renamed_ne. }
  (* [n2] is none of the others, so it alone is renamed *)
  set (tgt := fun n : pystr => if bool_decide (n = n2) then c else basename n).
  assert (forall n, In n seg1 \/ In n post -> n <> n2) as Hnot2.
  { intros n Hn ->. apply Hne12.
    apply (TwoEntries.nodup_map_eq basename (pre ++ n1 :: mid ++ post)).
    - exact Hothers.
    - apply Hother_in. now left.
    - now apply Hother_in.
    - now symmetry. }
  assert (forall n, In n seg1 \/ In n post -> tgt n = basename n) as Htgt.
  { intros n Hn. unfold tgt. rewrite bool_decide_eq_false_2; [reflexivity|].
    now apply Hnot2. }
  assert (tgt n2 = c) as Htgt2
    by (unfold tgt; now rewrite bool_decide_eq_true_2).
  assert (forall n, In n names -> tgt n = c \/ exists m, In m names
                                                  /\ tgt n = basename m)
    as Htgt_cases.
  { intros n Hn. apply Hmem in Hn as [Hn | [-> | Hn]].
    - right. exists n. split; [apply Hmem; now left | apply Htgt; now left].
    - now left.
    - right. exists n.
      split; [apply Hmem; now right; right | apply Htgt; now right]. }
  assert (forall n m, In n names -> In m names -> ~ In (tgt m) (dir_parts n))
    as Hclash.
  { intros n m Hn Hm. destruct (Htgt_cases m Hm) as [-> | (m' & Hm' & ->)].
    - now apply Hdirc.
    - now apply Hdirs. }
  assert (List.NoDup (map tgt names)) as Hnd_tgt.
  { assert (map tgt names
            = map basename seg1 ++ c :: map basename post) as ->.
    { rewrite Hnames, map_app. cbn [map]. rewrite Htgt2. f_equal; [|f_equal].
      - apply map_ext_in. intros n Hn. apply Htgt. now left.
      - apply map_ext_in. intros n Hn. apply Htgt. now right. }
    apply NoDup_ListNoDup, NoDup_app. split; [|split].
    - apply NoDup_ListNoDup.
      unfold seg1. rewrite app_comm_cons, app_assoc, map_app in Hothers.
      apply NoDup_ListNoDup, NoDup_app in Hothers as [H _].
      now apply NoDup_ListNoDup.
    - intros x Hx [->|Hpost]%elem_of_cons.
      + apply Hcname. rewrite Hnames, map_app. apply in_or_app. left.
        now apply list_elem_of_In.
      + rewrite app_comm_cons, app_assoc, map_app in Hothers.
        apply NoDup_ListNoDup, NoDup_app in Hothers as (_ & H & _).
        now apply (H x).
    - apply NoDup_cons. split.
      + intros Hin. apply Hcname. rewrite Hnames, map_app.
        apply in_or_app. right. right. now apply list_elem_of_In.
      + rewrite app_comm_cons, app_assoc, map_app in Hothers.
        now apply NoDup_ListNoDup, NoDup_app in Hothers as (_ & _ & H). }
  assert (List.Forall (fun n => is_rom_name n = true) names) as Hroms.
  { rewrite <- Hgb. apply ZipExtra.gb_files_rom_names. }
  rewrite List.Forall_forall in Hroms.
  assert (forall n, In n names -> In n (namelist entries)) as Hlisted.
  { intros n Hn. rewrite <- Hgb in Hn.
    apply list_elem_of_In, list_elem_of_filter in Hn as [_ Hn].
    now apply list_elem_of_In. }
  assert (List.NoDup (gb_files (namelist entries))) as Hnd.
  { rewrite Hgb. apply (List.NoDup_map_inv tgt), Hnd_tgt. }
  assert (In n2 names) as Hn2 by (apply Hmem; right; now left).
  pose proof (TwoEntries.getinfo_entry entries n1 d1
                (Hroms n1 (proj2 (Hmem n1) (or_introl Hn1))) Hnd Hin1) as Hg1.
  pose proof (TwoEntries.getinfo_entry entries n2 d2 (Hroms n2 Hn2) Hnd Hin2)
    as Hg2.
  assert (subdir = base_tmpdir ++ [subdir_name hash archive_path]) as Hsub
    by now apply TwoEntries.subdir_one_part.
  (* the sub-directory is made, or was there and empty *)
  destruct (TwoEntries.mkdir_exist_ok_spec subdir fs)
    as (fs1 & Hmk & Hdir1 & Hsame1).
  { rewrite Hsub. now destruct base_tmpdir. }
  { rewrite Hsub, FsFacts.parent_snoc. now apply FsFacts.stat_is_dir. }
  { assumption. }
  assert (zip_inv entries subdir tgt [] fs1) as Hinv1.
  { split; [unfold is_dir; now rewrite Hdir1|]. split; [intros m []|].
    intros rel x Hrel E. rewrite Hsame1, Hfresh in E; [discriminate|assumption|].
    intros H. symmetry in H. revert H. now apply ArchiveFacts.snoc_ne_self. }
  assert (forall l, (forall n, In n l -> In n seg1 \/ In n post) ->
            List.Forall (fun n => is_rom_name n = true /\ inside_name n
                                  /\ In n (namelist entries)
                                  /\ tgt n = basename n) l) as Hplain.
  { intros l Hl. apply List.Forall_forall. intros n Hn.
    assert (In n names) as Hin by (apply Hmem; destruct (Hl n Hn); auto).
    repeat split; [now apply Hroms | now apply Hinside | now apply Hinside
                  | now apply Hlisted | now apply Htgt, Hl]. }
  (* the entries before the second of the two keep their base names *)
  destruct (NoClash.extract_entries_no_clash entries subdir tgt seg1 [] [] fs1
              Hinv1)
    as (fs2 & Hrun1 & Hinv2).
  { apply Hplain. now left. }
  { cbn [app]. rewrite Hnames, map_app in Hnd_tgt.
    now apply NoDup_ListNoDup, NoDup_app in Hnd_tgt as [H _];
      apply NoDup_ListNoDup. }
  { cbn [app]. intros n m Hn Hm. apply Hclash; apply Hmem; now left. }
  cbn [app] in Hrun1, Hinv2.
  (* the second of the two finds [b] taken and [c] free *)
  destruct (ZipFacts.splitext_no_sep b (ZipFacts.basename_no_sep n1))
    as [Hstem Hsuffix].
  destruct (NoClash.extract_entry_step entries subdir tgt seg1 n2 fs2 Hinv2)
    as (fs3 & Hrun2 & Hinv3).
  { now apply Hroms. }
  { now apply Hinside. }
  { now apply Hlisted. }
  { rewrite Htgt2, Hbase. fold b.
    change (subdir ++ [c])
      with (subdir ++ [fst (splitext b) ++ lit "_" ++ str_of_nat 1
                       ++ snd (splitext b)]).
    rewrite <- (ZipFacts.candidate_parts subdir _ _ Hstem Hsuffix 1).
    apply ArchiveFacts.choose_first_candidate.
    - apply surjective_pairing.
    - unfold b. rewrite ZipExtra.rom_basename
        by (apply Hroms, Hmem; now left).
      destruct Hinv2 as (_ & I1 & _).
      destruct (I1 n1 Hn1) as (data & _ & Hfile).
      rewrite (Htgt n1 (or_introl Hn1)) in Hfile.
      unfold path_exists. now rewrite Hfile.
    - rewrite (ZipFacts.candidate_parts subdir _ _ Hstem Hsuffix 1).
      unfold path_exists.
      change (subdir ++ [fst (splitext b) ++ lit "_" ++ str_of_nat 1
                         ++ snd (splitext b)])
        with (subdir ++ [c]).
      rewrite (NoClash.zip_inv_free entries subdir tgt seg1 fs2 c Hinv2);
        [reflexivity | |].
      + intros m Hm H. apply Hcname. rewrite <- H, (Htgt m (or_introl Hm)).
        apply in_map, Hmem. now left.
      + intros m Hm. apply Hdirc, Hmem. now left. }
  { intros H. contradiction. }
  { intros m Hm. rewrite Hbase. fold b.
    change b with (basename n1).
    apply Hdirs; apply Hmem; now left. }
  { intros m Hm. apply Hclash; [assumption|].
    destruct Hm as [<-|Hm]; [assumption | apply Hmem; now left]. }
  (* the entries after it keep their base names *)
  destruct (NoClash.extract_entries_no_clash entries subdir tgt post
              (seg1 ++ [n2])
              (map (fun n => subdir ++ [tgt n]) seg1 ++ [subdir ++ [tgt n2]])
              fs3 Hinv3)
    as (fs4 & Hrun3 & Hinv4).
  { apply Hplain. now right. }
  { rewrite <- app_assoc. cbn [app]. now rewrite <- Hnames. }
  { rewrite <- app_assoc. cbn [app]. rewrite <- Hnames. apply Hclash. }
  rewrite <- app_assoc in Hinv4. cbn [app] in Hinv4. rewrite <- Hnames in Hinv4.
  destruct Hinv4 as (_ & I1 & _).
  exists fs4. split; [|split; [|split; [|split]]].
  - unfold collect_from_archive. fold subdir.
    rewrite (ArchiveFacts.bind_step _ _ fs fs1 tt Hmk).
    rewrite Hsuf, Hzip.
    change (pystr_eqb (lit ".zip") (lit ".zip")) with true. cbv iota.
    erewrite ArchiveFacts.bind_step.
    2: { unfold extract_gb_gbc_from_zip. rewrite Hgb, Hnames.
         replace (is_empty (seg1 ++ n2 :: post)) with false
           by now destruct seg1.
         rewrite (NoClash.extract_entries_app entries subdir seg1
                    (n2 :: post) [] fs1 fs2 _ Hrun1).
         cbn [extract_entries].
         rewrite (ArchiveFacts.bind_step _ _ fs2 fs3 _ Hrun2).
         rewrite Hrun3. reflexivity. }
    cbv beta iota.
    replace (is_empty _) with false
      by now destruct (map (fun n => subdir ++ [tgt n]) seg1).
    unfold ret. f_equal. f_equal.
    replace ((map (fun n => subdir ++ [tgt n]) seg1 ++ [subdir ++ [tgt n2]])
             ++ map (fun n => subdir ++ [tgt n]) post)
      with (map (fun n => subdir ++ [tgt n]) names)
      by (rewrite Hnames, map_app, <- app_assoc; reflexivity).
    unfold with_names. rewrite map_map.
    assert (forall n, In n pre \/ In n mid \/ In n post ->
              (subdir ++ [tgt n], path_name (subdir ++ [tgt n])) = plain n)
      as Hplain_eq.
    { intros n Hn. rewrite ArchiveFacts.path_name_snoc, Htgt; [reflexivity|].
      unfold seg1. rewrite in_app_iff. simpl. tauto. }
    unfold names. rewrite map_app. cbn [map]. rewrite map_app. cbn [map].
    rewrite !ArchiveFacts.path_name_snoc, Htgt2, (Htgt n1 (or_introl Hn1)).
    f_equal; [|f_equal; f_equal; [|f_equal]]; apply map_ext_in;
      intros n Hn; apply Hplain_eq; tauto.
  - destruct (I1 n1 (proj2 (Hmem n1) (or_introl Hn1))) as (data & Hd & Hf).
    rewrite (Htgt n1 (or_introl Hn1)) in Hf.
    rewrite Hg1 in Hd. injection Hd as <-. exact Hf.
  - destruct (I1 n2 Hn2) as (data & Hd & Hf). rewrite Htgt2 in Hf.
    rewrite Hg2 in Hd. injection Hd as <-. exact Hf.
  - intros H%app_inv_head. injection H as H. now apply Hcb.
  - exact Hcb.
Qed.

Lemma archive_equal_base_names_witness :
  snd (sample_collect [(lit "x.gb", rom_with_header Byte.x80);
                       (lit "a.gb", rom_with_header Byte.x00);
                       (lit "notes.txt", []);
                       (lit "sub/a.gb", rom_with_header Byte.xc0);
                       (lit "more/z.GBC", rom_with_header Byte.xc0)])
  = Ok [(sample_subdir ++ [lit "x.gb"], lit "x.gb");
        (sample_subdir ++ [lit "a.gb"], lit "a.gb");
        (sample_subdir ++ [lit "a_1.gb"], lit "a_1.gb");
        (sample_subdir ++ [lit "z.GBC"], lit "z.GBC")].
Proof.
  destruct (archive_equal_base_names (fun _ => []) (fun _ => 0)
              (fun _ => Zip [(lit "x.gb", rom_with_header Byte.x80);
                             (lit "a.gb", rom_with_header Byte.x00);
                             (lit "notes.txt", []);
                             (lit "sub/a.gb", rom_with_header Byte.xc0);
                             (lit "more/z.GBC", rom_with_header Byte.xc0)])
              [] (fun _ _ fs => (fs, TimeoutExpired))
              [lit "/"; lit "in"; lit "roms.zip"]
              [lit "/"; lit "tmp"; lit "w"]
              {[ [lit "/"; lit "tmp"; lit "w"] := Dir ]}
              [(lit "x.gb", rom_with_header Byte.x80);
               (lit "a.gb", rom_with_header Byte.x00);
               (lit "notes.txt", []);
               (lit "sub/a.gb", rom_with_header Byte.xc0);
               (lit "more/z.GBC", rom_with_header Byte.xc0)]
              [lit "x.gb"] [] [lit "more/z.GBC"]
              (lit "a.gb") (lit "sub/a.gb")
              (rom_with_header Byte.x00) (rom_with_header Byte.xc0))
    as (fs' & H & _).
  - vm_compute. reflexivity.
  - vm_compute. intros H. repeat destruct H as [H|H]; try discriminate H.
    exact H.
  - reflexivity.
  - vm_compute. reflexivity.
  - right. now left.
  - do 3 right. now left.
  - discriminate.
  - vm_compute. reflexivity.
  - vm_compute.
    repeat (constructor;
            [intros H; repeat destruct H as [H|H]; try discriminate H;
             exact H|]).
    constructor.
  - vm_compute. intros H. repeat destruct H as [H|H]; try discriminate H.
    exact H.
  - intros n Hn. vm_compute in Hn.
    destruct Hn as [<-|[<-|[<-|[<-|[]]]]]; split; vm_compute; reflexivity.
  - vm_compute. discriminate.
  - intros n m Hn Hm. vm_compute in Hn, Hm.
    destruct Hn as [<-|[<-|[<-|[<-|[]]]]];
      destruct Hm as [<-|[<-|[<-|[<-|[]]]]];
      vm_compute; intros H; repeat destruct H as [H|H];
      try discriminate H; exact H.
  - intros n Hn. vm_compute in Hn.
    destruct Hn as [<-|[<-|[<-|[<-|[]]]]];
      vm_compute; intros H; repeat destruct H as [H|H];
      try discriminate H; exact H.
  - vm_compute. reflexivity.
  - intros data. rewrite lookup_singleton_ne; [discriminate|].
    vm_compute. discriminate.
  - intros rel Hrel. apply lookup_singleton_ne. vm_compute. discriminate.
  - unfold sample_collect. rewrite H. reflexivity.
Defined.
